(** * Email discovery engine of the sales-lead crawler

    A shallow embedding of [EmailCrawler] (email_crawler.py; the Render
    variant email_crawler_render.py has the same four methods, byte for
    byte) and the properties of its tiered lookup:

    - [email_pattern], [findall]: the compiled regular expression and
      [re.findall] on it, as a backtracking matcher;
    - [search_naver_place], [extract_email_from_website], [find_email]:
      the three methods, in a state-and-exception monad over a scripted
      browser;
    - [add_email_column], [crawl_all_companies]: the column setup and the
      batch run over the rows, over a scripted worksheet.

    Texts are [string]s whose characters are the code points 0..255.  The
    pattern's classes are ASCII; a character outside ASCII matters only
    through [\b], which asks whether it is a word character, and both
    kinds occur among the code points 128..255. *)

From Stdlib Require Import List String Ascii Bool Arith NArith Lia.
From Stdlib Require Import ZArith.
Import ListNotations.
Open Scope string_scope.
Open Scope bool_scope.

Set Implicit Arguments.

(** ** Text primitives (Python [str]) *)

Module Text.

Definition code (c : ascii) : N := N_of_ascii c.

(** [lo <= c <= hi] on code points, as in a class range [lo-hi]. *)
Definition in_range (lo hi c : ascii) : bool :=
  (code lo <=? code c)%N && (code c <=? code hi)%N.

(** [\w] of a [str] pattern: alphanumeric or underscore.  Below 128 that
    is [A-Za-z0-9_]; from 128 to 255 the alphanumeric code points. *)
Definition is_word (c : ascii) : bool :=
  let n := code c in
  in_range "0" "9" c || in_range "A" "Z" c || in_range "a" "z" c
  || (n =? 95)%N
  || (n =? 170)%N || (n =? 178)%N || (n =? 179)%N || (n =? 181)%N
  || (n =? 185)%N || (n =? 186)%N
  || ((188 <=? n)%N && (n <=? 190)%N)
  || ((192 <=? n)%N && (n <=? 214)%N)
  || ((216 <=? n)%N && (n <=? 246)%N)
  || (248 <=? n)%N.

(** [str.lower] on one character. *)
Definition lower_char (c : ascii) : ascii :=
  let n := code c in
  if ((65 <=? n)%N && (n <=? 90)%N)
     || ((192 <=? n)%N && (n <=? 222)%N && negb (n =? 215)%N)
  then ascii_of_N (n + 32) else c.

Fixpoint lower (s : string) : string :=
  match s with
  | EmptyString => EmptyString
  | String c s' => String (lower_char c) (lower s')
  end.

(** Whitespace removed by [str.strip()]. *)
Definition is_space (c : ascii) : bool :=
  let n := code c in
  ((9 <=? n)%N && (n <=? 13)%N) || ((28 <=? n)%N && (n <=? 32)%N)
  || (n =? 133)%N || (n =? 160)%N.

Fixpoint lstrip (s : string) : string :=
  match s with
  | EmptyString => EmptyString
  | String c s' => if is_space c then lstrip s' else s
  end.

Fixpoint rstrip (s : string) : string :=
  match s with
  | EmptyString => EmptyString
  | String c s' =>
      match rstrip s' with
      | EmptyString => if is_space c then EmptyString else String c EmptyString
      | r => String c r
      end
  end.

Definition strip (s : string) : string := rstrip (lstrip s).

(** [s.startswith(p)]. *)
Definition startswith (p s : string) : bool := prefix p s.

(** [sub in s]. *)
Fixpoint contains (sub s : string) : bool :=
  prefix sub s
  || match s with
     | EmptyString => false
     | String _ s' => contains sub s'
     end.

Fixpoint take (n : nat) (s : string) : string :=
  match n, s with
  | S n', String c s' => String c (take n' s')
  | _, _ => EmptyString
  end.

Fixpoint drop (n : nat) (s : string) : string :=
  match n, s with
  | S n', String _ s' => drop n' s'
  | _, _ => s
  end.

Definition head (s : string) : option ascii :=
  match s with
  | EmptyString => None
  | String c _ => Some c
  end.

(** Truth value of [None], [''] and a non-empty string. *)
Definition truthy (o : option string) : bool :=
  match o with
  | None => false
  | Some s => negb (s =? "")
  end.

End Text.

(** ** The regular expression and [re.findall] *)

Module Regex.
Import Text.

(** A bracket expression is a list of ranges and single characters. *)
Inductive class_item : Type :=
| Range (lo hi : ascii)
| Single (c : ascii).

Definition class := list class_item.

Definition item_has (i : class_item) (c : ascii) : bool :=
  match i with
  | Range lo hi => in_range lo hi c
  | Single x => Ascii.eqb x c
  end.

Definition in_class (cs : class) (c : ascii) : bool :=
  existsb (fun i => item_has i c) cs.

(** The pattern is a sequence of atoms: [\b], one literal character, or
    a greedy repetition [cs{lo,}] of a bracket expression ([+] is
    [{1,}]). *)
Inductive atom : Type :=
| WordBoundary
| Literal (c : ascii)
| Repeat (cs : class) (lo : nat).

Definition pattern := list atom.

(** [\b[A-Za-z0-9._%+-]+@[A-Za-z0-9.-]+\.[A-Z|a-z]{2,}\b] *)
Definition local_class : class :=
  [Range "A" "Z"; Range "a" "z"; Range "0" "9";
   Single "."; Single "_"; Single "%"; Single "+"; Single "-"].

Definition domain_class : class :=
  [Range "A" "Z"; Range "a" "z"; Range "0" "9"; Single "."; Single "-"].

Definition tld_class : class :=
  [Range "A" "Z"; Single "|"; Range "a" "z"].

Definition email_pattern : pattern :=
  [WordBoundary; Repeat local_class 1; Literal "@";
   Repeat domain_class 1; Literal "."; Repeat tld_class 2; WordBoundary].

Definition word_opt (o : option ascii) : bool :=
  match o with
  | None => false
  | Some c => is_word c
  end.

(** [\b] holds between [prev] and the first character of [s] when
    exactly one of them is a word character; the two ends of the text
    count as non-word. *)
Definition at_boundary (prev : option ascii) (s : string) : bool :=
  xorb (word_opt prev) (word_opt (head s)).

(** Length of the longest prefix of [s] made of characters of [cs]. *)
Fixpoint span (cs : class) (s : string) : nat :=
  match s with
  | EmptyString => 0
  | String c s' => if in_class cs c then S (span cs s') else 0
  end.

(** The character before position [k] of [s], where [prev] is the one
    before [s]. *)
Definition char_before (prev : option ascii) (s : string) (k : nat)
  : option ascii :=
  match k with
  | 0 => prev
  | S k' => get k' s
  end.

(** Greedy repetition: the rest of the pattern is tried after [k]
    characters, then after [k-1], down to [lo]. *)
Fixpoint backtrack (rest : option ascii -> string -> option nat)
         (prev : option ascii) (s : string) (lo k : nat) : option nat :=
  if Nat.ltb k lo then None
  else match rest (char_before prev s k) (drop k s) with
       | Some m => Some (k + m)
       | None =>
           match k with
           | 0 => None
           | S k' => backtrack rest prev s lo k'
           end
       end.

(** Match [p] at the start of [s]; the result is the length of the first
    match in backtracking order. *)
Fixpoint match_here (p : pattern) (prev : option ascii) (s : string)
  : option nat :=
  match p with
  | [] => Some 0
  | WordBoundary :: p' =>
      if at_boundary prev s then match_here p' prev s else None
  | Literal c :: p' =>
      match s with
      | String c' s' =>
          if Ascii.eqb c' c
          then option_map S (match_here p' (Some c') s')
          else None
      | EmptyString => None
      end
  | Repeat cs lo :: p' =>
      backtrack (match_here p') prev s lo (span cs s)
  end.

(** Left-to-right scan for non-overlapping matches.  [skip] counts the
    characters of the last match still to be passed over.  An empty
    match is not recorded: [email_pattern] has none. *)
Fixpoint scan (p : pattern) (skip : nat) (prev : option ascii) (s : string)
  : list string :=
  match s with
  | EmptyString => []
  | String c s' =>
      match skip with
      | S k => scan p k (Some c) s'
      | 0 =>
          match match_here p prev s with
          | Some (S n) => take (S n) s :: scan p n (Some c) s'
          | _ => scan p 0 (Some c) s'
          end
      end
  end.

(** [self.email_pattern.findall(text)] *)
Definition findall (text : string) : list string :=
  scan email_pattern 0 None text.

End Regex.

(** ** The browser session and the effects of the crawler's methods *)

Module Browser.

(** A call of the driver returns or raises; [Raised] carries the message
    of an exception of class [Exception], the only kind the handlers
    below are written for. *)
Inductive Outcome (A : Type) : Type :=
| Ok (a : A)
| Raised (e : string).
Arguments Ok {A} a.
Arguments Raised {A} e.

(** An element found by the telephone selector, read through [.text]. *)
Record PhoneElement : Type := { text : Outcome string }.

(** An element found by [a[href*="http"]], read through
    [get_attribute('href')], which gives a string or [None]. *)
Record LinkElement : Type := { get_attribute_href : Outcome (option string) }.

#[local] Unset Elimination Schemes.

(** What the session shows after a navigation: the results of the three
    [find_elements] lookups and of [page_source].  A contact link is
    given by what [click()] on it does: the page it leads to, or an
    exception. *)
Inductive Page : Type := MkPage {
  phone_elements : Outcome (list PhoneElement);
  homepage_elements : Outcome (list LinkElement);
  page_source : Outcome string;
  contact_links : Outcome (list (Outcome Page))
}.
#[local] Set Elimination Schemes.

(** The remote content: what [driver.get(url)] loads, or its failure. *)
Definition Web := string -> Outcome Page.

(** What a test double records: navigations and clicks of the driver and
    the invocations of the two resolver methods. *)
Inductive Event : Type :=
| Navigate (url : string)
| Click
| Invoke_search_naver_place (company_name : string)
| Invoke_extract_email_from_website (url : option string).

Record Session : Type := {
  current : Page;
  events : list Event
}.

(** State and exceptions.  The state reached when an exception is raised
    is kept, as mutations are in Python. *)
Definition M (S A : Type) : Type := S -> Outcome A * S.

Definition ret {S A} (a : A) : M S A := fun s => (Ok a, s).

Definition bind {S A B} (m : M S A) (k : A -> M S B) : M S B :=
  fun s =>
    match m s with
    | (Ok a, s') => k a s'
    | (Raised e, s') => (Raised e, s')
    end.

Definition raise {S A} (e : string) : M S A := fun s => (Raised e, s).

(** [try: m  except Exception as e: h e] *)
Definition try_except {S A} (m : M S A) (h : string -> M S A) : M S A :=
  fun s =>
    match m s with
    | (Ok a, s') => (Ok a, s')
    | (Raised e, s') => h e s'
    end.

Definition of_outcome {S A} (o : Outcome A) : M S A := fun s => (o, s).

(** A block that mutates a local variable of type [L]: the driver's
    operations leave [L] alone, and [with_local] gives the block its
    initial value and returns the final one. *)
Definition on_session {L A} (m : M Session A) : M (Session * L) A :=
  fun sl =>
    let '(o, s') := m (fst sl) in (o, (s', snd sl)).

Definition update {L} (f : L -> L) : M (Session * L) unit :=
  fun sl => (Ok tt, (fst sl, f (snd sl))).

Definition with_local {L A} (l0 : L) (m : M (Session * L) A) : M Session L :=
  fun s =>
    match m (s, l0) with
    | (Ok _, (s', l)) => (Ok l, s')
    | (Raised e, (s', _)) => (Raised e, s')
    end.

Declare Scope monad_scope.
Delimit Scope monad_scope with monad.
Notation "x <- m ;; k" := (bind m (fun x => k))
  (at level 61, m at next level, right associativity) : monad_scope.
Notation "m ;; k" := (bind m (fun _ => k))
  (at level 61, right associativity) : monad_scope.

(** The test double notes an event. *)
Definition record (e : Event) : M Session unit :=
  fun s => (Ok tt, {| current := current s; events := (events s ++ [e])%list |}).

Section Driver.
Variable web : Web.

(** [self.driver.get(url)] *)
Definition driver_get (url : string) : M Session unit :=
  fun s =>
    let s1 := {| current := current s; events := events s ++ [Navigate url] |} in
    match web url with
    | Ok p => (Ok tt, {| current := p; events := events s1 |})
    | Raised e => (Raised e, s1)
    end.

(** [time.sleep(n)] *)
Definition sleep (n : nat) : M Session unit := ret tt.

(** [self.driver.find_elements(By.CSS_SELECTOR, ...)] with the telephone
    selector. *)
Definition find_phone_elements : M Session (list PhoneElement) :=
  fun s => (phone_elements (current s), s).

(** The same with the selector of links whose [href] contains http. *)
Definition find_homepage_elements : M Session (list LinkElement) :=
  fun s => (homepage_elements (current s), s).

(** [self.driver.find_elements(By.XPATH, ...)] with the expression for
    anchors labelled as contact or about pages. *)
Definition find_contact_links : M Session (list (Outcome Page)) :=
  fun s => (contact_links (current s), s).

(** [self.driver.page_source] *)
Definition driver_page_source : M Session string :=
  fun s => (page_source (current s), s).

(** [link.click()] *)
Definition click (link : Outcome Page) : M Session unit :=
  fun s =>
    let s1 := {| current := current s; events := events s ++ [Click] |} in
    match link with
    | Ok p => (Ok tt, {| current := p; events := events s1 |})
    | Raised e => (Raised e, s1)
    end.
End Driver.

End Browser.

(** ** The crawler's methods *)

Module Crawler.
Import Text Regex Browser.
Open Scope monad_scope.

(** The dict [{email, homepage, phone}] of [search_naver_place]. *)
Record NaverResult : Type := {
  n_email : option string;
  n_homepage : option string;
  n_phone : option string
}.

(** The labels written to [result['source']]: the search stage
    ("네이버 플레이스") and the website stage ("회사 홈페이지").  The
    field starts as [None], here [None : option Source]. *)
Inductive Source : Type := NaverPlace | CompanyHomepage.

(** ['HIGH'], ['MEDIUM'], ['LOW']. *)
Inductive Confidence : Type := HIGH | MEDIUM | LOW.

(** The dict [{email, source, confidence}] of [find_email]. *)
Record DiscoveryResult : Type := {
  email : option string;
  source : option Source;
  confidence : Confidence
}.

Definition no_data : NaverResult :=
  {| n_email := None; n_homepage := None; n_phone := None |}.

Definition set_phone (v : string) (r : NaverResult) : NaverResult :=
  {| n_email := n_email r; n_homepage := n_homepage r; n_phone := Some v |}.

Definition set_homepage (v : string) (r : NaverResult) : NaverResult :=
  {| n_email := n_email r; n_homepage := Some v; n_phone := n_phone r |}.

Definition set_email (v : string) (r : NaverResult) : NaverResult :=
  {| n_email := Some v; n_homepage := n_homepage r; n_phone := n_phone r |}.

(** [href and 'naver.com' not in href and 'google.com' not in href],
    where [href] is a string or [None]. *)
Definition href_accepted (href : option string) : bool :=
  truthy href
  && match href with
     | Some h => negb (contains "naver.com" h) && negb (contains "google.com" h)
     | None => false
     end.

(** [[email for email in emails
      if 'naver.com' not in email and 'google.com' not in email]] *)
Definition valid_emails (emails : list string) : list string :=
  filter (fun email =>
            negb (contains "naver.com" email)
            && negb (contains "google.com" email))
         emails.

Definition priority_keywords : list string :=
  ["ceo"; "info"; "contact"; "admin"; "master"].

(** The inner loop: the first email whose lower-cased text contains
    [keyword]. *)
Fixpoint first_with (keyword : string) (emails : list string) : option string :=
  match emails with
  | [] => None
  | email :: rest =>
      if contains keyword (lower email) then Some email
      else first_with keyword rest
  end.

(** The outer loop over the keywords. *)
Fixpoint by_priority (keywords emails : list string) : option string :=
  match keywords with
  | [] => None
  | keyword :: rest =>
      match first_with keyword emails with
      | Some email => Some email
      | None => by_priority rest emails
      end
  end.

(** The selection at the end of [extract_email_from_website]: the two
    loops, then [emails[0]], then [None]. *)
Definition pick_best (emails keywords : list string) : option string :=
  match by_priority keywords emails with
  | Some email => Some email
  | None =>
      match emails with
      | first :: _ => Some first
      | [] => None
      end
  end.

Section Methods.
Variable web : Web.

(** The loop over [homepage_elements], with its [break]. *)
Fixpoint homepage_loop (elems : list LinkElement)
  : M (Session * NaverResult) unit :=
  match elems with
  | [] => ret tt
  | elem :: rest =>
      href <- of_outcome (get_attribute_href elem) ;;
      match href with
      | Some h =>
          if href_accepted href then update (set_homepage h)
          else homepage_loop rest
      | None => homepage_loop rest
      end
  end.

(** The body of the inner [try] of [search_naver_place]. *)
Definition place_info : M (Session * NaverResult) unit :=
  phone_elements <- on_session find_phone_elements ;;
  match phone_elements with
  | first :: _ =>
      t <- of_outcome (text first) ;;
      update (set_phone (strip t))
  | [] => ret tt
  end ;;
  homepage_elements <- on_session find_homepage_elements ;;
  homepage_loop homepage_elements ;;
  page_source <- on_session driver_page_source ;;
  let emails := findall page_source in
  let valid := valid_emails emails in
  match valid with
  | first :: _ => update (set_email first)
  | [] => ret tt
  end.

Definition search_url (company_name : string) : string :=
  "https://search.naver.com/search.naver?query=" ++ company_name.

Definition search_naver_place (company_name : string) : M Session NaverResult :=
  record (Invoke_search_naver_place company_name) ;;
  try_except
    (driver_get web (search_url company_name) ;;
     sleep 2 ;;
     with_local no_data
       (try_except place_info (fun e => ret tt)))
    (fun e => ret no_data).

Definition extract_email_from_website (url : option string)
  : M Session (option string) :=
  record (Invoke_extract_email_from_website url) ;;
  try_except
    (match url with
     | None => ret None
     | Some u =>
         if u =? "" then ret None
         else
           let u := if startswith "http" u then u else "http://" ++ u in
           driver_get web u ;;
           sleep 2 ;;
           contact <- find_contact_links ;;
           match contact with
           | first :: _ => click first ;; sleep 2
           | [] => ret tt
           end ;;
           page_source <- driver_page_source ;;
           let emails := findall page_source in
           ret (pick_best emails priority_keywords)
     end)
    (fun e => ret None).

Definition find_email (company_name : string) (representative : option string)
  : M Session DiscoveryResult :=
  let result := {| email := None; source := None; confidence := LOW |} in
  naver_result <- search_naver_place company_name ;;
  if truthy (n_email naver_result) then
    ret {| email := n_email naver_result;
           source := Some NaverPlace;
           confidence := HIGH |}
  else
    if truthy (n_homepage naver_result) then
      website_email <- extract_email_from_website (n_homepage naver_result) ;;
      if truthy website_email then
        ret {| email := website_email;
               source := Some CompanyHomepage;
               confidence := MEDIUM |}
      else ret result
    else ret result.

End Methods.
End Crawler.

(** ** The specification's reading of three heuristics

    These follow the specification's wording, not the code: they are what
    the code is compared with. *)

Module Spec.
Import Text Regex.

(** The part of an address before its first [@]. *)
Fixpoint local_part (email : string) : string :=
  match email with
  | EmptyString => EmptyString
  | String c rest =>
      if Ascii.eqb c "@" then EmptyString else String c (local_part rest)
  end.

(** The part of an address after its first [@]; empty when there is no
    [@]. *)
Fixpoint domain (email : string) : string :=
  match email with
  | EmptyString => EmptyString
  | String c rest => if Ascii.eqb c "@" then rest else domain rest
  end.

(** [s] ends with [suffix]. *)
Fixpoint ends_with (suffix s : string) : bool :=
  (s =? suffix)
  || match s with
     | EmptyString => false
     | String _ s' => ends_with suffix s'
     end.

(** The search portal's own domain and the generic search-engine domain. *)
Definition excluded_domains : list string := ["naver.com"; "google.com"].

(** "whose domain suffix matches an entry in excludeDomains" *)
Definition domain_excluded (email : string) : bool :=
  existsb (fun d => ends_with d (domain email)) excluded_domains.

(** The exclusion filter as specified. *)
Definition exclude (candidates : list string) : list string :=
  filter (fun e => negb (domain_excluded e)) candidates.

(** "the first candidate whose local-part case-insensitively contains
    it" *)
Fixpoint first_with_local (keyword : string) (candidates : list string)
  : option string :=
  match candidates with
  | [] => None
  | c :: rest =>
      if contains (lower keyword) (lower (local_part c)) then Some c
      else first_with_local keyword rest
  end.

Fixpoint by_priority_local (keywords candidates : list string) : option string :=
  match keywords with
  | [] => None
  | k :: rest =>
      match first_with_local k candidates with
      | Some c => Some c
      | None => by_priority_local rest candidates
      end
  end.

(** [pickBest] as specified: keyword order first, matched on the
    local part; else the first candidate; else none. *)
Definition pickBest (candidates keywords : list string) : option string :=
  match by_priority_local keywords candidates with
  | Some c => Some c
  | None => List.hd_error candidates
  end.

(** The text after the first occurrence of [sep] in [s], if any. *)
Fixpoint after (sep s : string) : option string :=
  if prefix sep s then Some (drop (String.length sep) s)
  else match s with
       | EmptyString => None
       | String _ s' => after sep s'
       end.

(** The longest prefix free of the characters that end a host:
    [/], [?], [#] and [:]. *)
Fixpoint until_delimiter (s : string) : string :=
  match s with
  | EmptyString => EmptyString
  | String c s' =>
      if Ascii.eqb c "/" || Ascii.eqb c "?" || Ascii.eqb c "#" || Ascii.eqb c ":"
      then EmptyString
      else String c (until_delimiter s')
  end.

(** The target host of a link: what stands between [://] and the next
    delimiter. *)
Definition host (url : string) : string :=
  match after "://" url with
  | Some rest => until_delimiter rest
  | None => until_delimiter url
  end.

(** "whose target host is neither the search portal's own domain nor a
    generic search-engine domain" *)
Definition outbound (url : string) : bool :=
  negb (existsb (fun d => ends_with d (host url)) excluded_domains).

(** The homepage as specified: the first outbound link in document
    order. *)
Definition homepage (hrefs : list string) : option string :=
  List.find outbound hrefs.

Definition is_letter (c : ascii) : bool :=
  in_range "A" "Z" c || in_range "a" "z" c.

Fixpoint all_chars (f : ascii -> bool) (s : string) : bool :=
  match s with
  | EmptyString => true
  | String c s' => f c && all_chars f s'
  end.

(** The email grammar: one or more of [[A-Za-z0-9._%+-]], [@], one or
    more of [[A-Za-z0-9.-]], a dot, two or more letters. *)
Definition email_grammar (s : string) : Prop :=
  exists loc dom tld,
    s = loc ++ "@" ++ dom ++ "." ++ tld
    /\ loc <> "" /\ all_chars (in_class local_class) loc = true
    /\ dom <> "" /\ all_chars (in_class domain_class) dom = true
    /\ 2 <= String.length tld /\ all_chars is_letter tld = true.

End Spec.

(** ** Vocabulary of the statements *)

Module Terms.
Import Text Regex Browser Crawler.

(** [sub] occurs somewhere in [s]. *)
Definition occurs (sub s : string) : Prop :=
  exists before after, s = before ++ sub ++ after.

(** The strings of [ms] occur in [text] one after the other, left to
    right, without overlap. *)
Inductive in_order : list string -> string -> Prop :=
| in_order_nil : forall text, in_order [] text
| in_order_cons : forall gap m ms rest,
    in_order ms rest -> in_order (m :: ms) (gap ++ m ++ rest).

(** The form of a string matched by a pattern, word boundaries aside:
    each literal in place, each repetition a run of at least [lo]
    characters of its class. *)
Fixpoint shape (p : pattern) (m : string) : Prop :=
  match p with
  | [] => m = ""
  | WordBoundary :: p' => shape p' m
  | Literal c :: p' => exists m', m = String c m' /\ shape p' m'
  | Repeat cs lo :: p' =>
      exists run m',
        m = run ++ m' /\ lo <= String.length run
        /\ Spec.all_chars (in_class cs) run = true /\ shape p' m'
  end.

(** Number of invocations of the website stage among recorded events. *)
Fixpoint website_calls (evs : list Event) : nat :=
  match evs with
  | [] => 0
  | Invoke_extract_email_from_website _ :: rest => S (website_calls rest)
  | _ :: rest => website_calls rest
  end.

(** What each of the three steps of the metadata block computes on a
    loaded page when it is reached: the value it stores, or the exception
    it raises. *)
Definition phone_of (p : Page) : Outcome (option string) :=
  match phone_elements p with
  | Raised e => Raised e
  | Ok [] => Ok None
  | Ok (first :: _) =>
      match text first with
      | Ok t => Ok (Some (strip t))
      | Raised e => Raised e
      end
  end.

Fixpoint first_accepted (elems : list LinkElement) : Outcome (option string) :=
  match elems with
  | [] => Ok None
  | elem :: rest =>
      match get_attribute_href elem with
      | Raised e => Raised e
      | Ok href => if href_accepted href then Ok href else first_accepted rest
      end
  end.

Definition homepage_of (p : Page) : Outcome (option string) :=
  match homepage_elements p with
  | Raised e => Raised e
  | Ok elems => first_accepted elems
  end.

Definition email_of (p : Page) : Outcome (option string) :=
  match page_source p with
  | Raised e => Raised e
  | Ok src => Ok (List.hd_error (valid_emails (findall src)))
  end.

(** The result of the search stage on a loaded page: the steps run in the
    order phone, homepage, email, and the first exception ends the
    block, leaving the fields not yet stored at [None]. *)
Definition extracted (p : Page) : NaverResult :=
  match phone_of p with
  | Raised _ => no_data
  | Ok ph =>
      match homepage_of p with
      | Raised _ => {| n_email := None; n_homepage := None; n_phone := ph |}
      | Ok hp =>
          match email_of p with
          | Raised _ => {| n_email := None; n_homepage := hp; n_phone := ph |}
          | Ok em => {| n_email := em; n_homepage := hp; n_phone := ph |}
          end
      end
  end.

(** The URL the website stage navigates to. *)
Definition normalized (url : string) : string :=
  if startswith "http" url then url else "http://" ++ url.

(** The session after the search stage: the page shown, and the two
    events the stage adds to the record. *)
Definition after_search (company_name : string) (page : Page) (s : Session)
  : Session :=
  {| current := page;
     events := ((events s ++ [Invoke_search_naver_place company_name])
                ++ [Navigate (search_url company_name)])%list |}.

(** A link is passed over by the homepage loop. *)
Definition passed_over (href : option string) : Prop :=
  match href with
  | None => True
  | Some h => h = "" \/ occurs "naver.com" h \/ occurs "google.com" h
  end.

(** The page on which the website stage reads the addresses: the target
    of the first contact link if there is one, else the homepage. *)
Definition landing (home : Page) : Outcome Page :=
  match contact_links home with
  | Raised e => Raised e
  | Ok [] => Ok home
  | Ok (first :: _) => first
  end.

(** A link element whose [href] attribute reads without error. *)
Definition link_of (href : option string) : LinkElement :=
  {| get_attribute_href := Ok href |}.

(** What the website stage answers once the homepage has loaded. *)
Definition website_answer (home : Page) : option string :=
  match landing home with
  | Raised _ => None
  | Ok lp =>
      match page_source lp with
      | Raised _ => None
      | Ok src => pick_best (findall src) priority_keywords
      end
  end.

End Terms.

(** ** Sample pages *)

Module Samples.
Import Text Regex Browser Crawler.

Definition link (h : string) : LinkElement :=
  {| get_attribute_href := Ok (Some h) |}.

Definition page (src : string) : Page :=
  MkPage (Ok []) (Ok []) (Ok src) (Ok []).

Definition blank : Page := page "".

Definition fresh : Session := {| current := blank; events := [] |}.

(** A listing whose telephone lookup fails although a homepage link and
    an address are on the page. *)
Definition stale_phone : Page :=
  MkPage (Raised "stale element") (Ok [link "http://acme.kr"])
         (Ok "mail sales@acme.kr now") (Ok []).

(** A listing with an address of its own. *)
Definition listed : Page :=
  MkPage (Ok [ {| text := Ok " 02-123-4567 " |} ]) (Ok [link "http://acme.kr"])
         (Ok "help@naver.com sales@acme.kr") (Ok []).

(** A listing whose page source cannot be read after the telephone and
    the links were. *)
Definition source_fails : Page :=
  MkPage (Ok [ {| text := Ok " 02-123-4567 " |} ]) (Ok [link "http://acme.kr"])
         (Raised "no such window") (Ok []).

(** A listing with links only; two of them mention the portal. *)
Definition links_only : Page :=
  MkPage (Ok [])
         (Ok [link "https://map.naver.com/p"; link "https://acme.kr/?from=naver.com";
              link "http://acme.kr"])
         (Ok "help@naver.com") (Ok []).

(** A listing whose only link mentions the portal in its query string. *)
Definition referred : Page :=
  MkPage (Ok []) (Ok [link "https://acme.kr/?from=naver.com"]) (Ok "") (Ok []).

Definition contact_page : Page :=
  page "x webmaster@hosting.com info@acme.kr".

Definition home_page : Page :=
  MkPage (Ok []) (Ok []) (Ok "webmaster@hosting.com") (Ok [Ok contact_page]).

Definition serve (listing : Page) : Web :=
  fun url =>
    if url =? search_url "acme" then Ok listing
    else if url =? "http://acme.kr" then Ok home_page
    else Raised "net::ERR_NAME_NOT_RESOLVED".

Definition offline : Web := fun _ => Raised "net::ERR_INTERNET_DISCONNECTED".

End Samples.

(** ** The worksheet and the batch run *)

Module Spreadsheet.
Import Text Regex Browser Crawler.
Open Scope monad_scope.

(** One call [sheet.update_cell(row, col, value)]. *)
Record Write : Type := {
  w_row : Z;
  w_col : Z;
  w_value : option string
}.

(** The worksheet as the crawler meets it: what [row_values(1)] and
    [get_all_values()] answer, and whether a call of [update_cell]
    succeeds, given the calls made before it. *)
Record Sheet : Type := {
  row_values_1 : Outcome (list string);
  get_all_values : Outcome (list (list string));
  update_cell_result : list Write -> Write -> Outcome unit
}.

(** The browser session and the calls of [update_cell] made so far. *)
Definition Desk : Type := (Session * list Write)%type.

(** The labels of the sheet.  They are only compared and written, and
    are held as the bytes of their UTF-8 form. *)
Definition EMAIL_HEADER : string := "대표이메일(자동수집)".
Definition SOURCE_HEADER : string := "수집출처".
Definition CONFIDENCE_HEADER : string := "신뢰도".
Definition NOT_FOUND : string := "미발견".

(** The text [find_email] stores in [result['source']]. *)
Definition source_label (src : Source) : string :=
  match src with
  | NaverPlace => "네이버 플레이스"
  | CompanyHomepage => "회사 홈페이지"
  end.

(** The text [find_email] stores in [result['confidence']]. *)
Definition confidence_label (c : Confidence) : string :=
  match c with
  | HIGH => "HIGH"
  | MEDIUM => "MEDIUM"
  | LOW => "LOW"
  end.

(** [x in l] for a list of strings. *)
Definition member (x : string) (l : list string) : bool :=
  existsb (String.eqb x) l.

(** [l.index(x)]: the position of the first [x], if any. *)
Fixpoint index_of (x : string) (l : list string) : option nat :=
  match l with
  | [] => None
  | y :: rest =>
      if String.eqb y x then Some 0 else option_map S (index_of x rest)
  end.

(** [l[i]] for an integer [i]: a negative index counts from the end, and
    an index outside the list raises [IndexError]. *)
Definition py_index {A : Type} (l : list A) (i : Z) : Outcome A :=
  let n := Z.of_nat (List.length l) in
  let j := if (i <? 0)%Z then (i + n)%Z else i in
  if (0 <=? j)%Z && (j <? n)%Z then
    match nth_error l (Z.to_nat j) with
    | Some x => Ok x
    | None => Raised "list index out of range"
    end
  else Raised "list index out of range".

(** [range(a, b)] *)
Definition py_range (a b : Z) : list Z :=
  map (fun k => (a + Z.of_nat k)%Z) (seq 0 (Z.to_nat (b - a))).

(** [row_data[k] if len(row_data) > k else None] *)
Definition cell (row_data : list string) (k : nat) : option string :=
  if Nat.ltb k (List.length row_data) then nth_error row_data k else None.

Section Batch.
Variable sheet : Sheet.
Variable web : Web.

(** [self.sheet.update_cell(row, col, value)] *)
Definition update_cell (row col : Z) (value : option string) : M Desk unit :=
  fun d =>
    let w := {| w_row := row; w_col := col; w_value := value |} in
    (update_cell_result sheet (snd d) w, (fst d, (snd d ++ [w])%list)).

(** The column setup: the position of the email column, after adding
    the three headers when it is missing; [None] on any failure. *)
Definition add_email_column : M Desk (option Z) :=
  try_except
    (headers <- of_outcome (row_values_1 sheet) ;;
     if member EMAIL_HEADER headers then
       match index_of EMAIL_HEADER headers with
       | Some i => ret (Some (Z.of_nat i + 1)%Z)
       | None => raise "ValueError"
       end
     else
       let new_col_index := (Z.of_nat (List.length headers) + 1)%Z in
       update_cell 1 new_col_index (Some EMAIL_HEADER) ;;
       update_cell 1 (new_col_index + 1) (Some SOURCE_HEADER) ;;
       update_cell 1 (new_col_index + 2) (Some CONFIDENCE_HEADER) ;;
       ret (Some new_col_index))
    (fun e => ret None).

(** The body of the loop of [crawl_all_companies] for the indices
    [idxs], with [success_count] carried along. *)
Fixpoint crawl_rows (all_data : list (list string)) (email_col : Z)
         (idxs : list Z) (success_count : Z) : M Desk Z :=
  match idxs with
  | [] => ret success_count
  | idx :: rest =>
      let row_num := (idx + 1)%Z in
      row_data <- of_outcome (py_index all_data idx) ;;
      let company_name := cell row_data 1 in
      let representative := cell row_data 2 in
      match company_name with
      | Some name =>
          if truthy company_name then
            result <- on_session (find_email web name representative) ;;
            success_count <-
              (if truthy (email result) then
                 update_cell row_num email_col (email result) ;;
                 update_cell row_num (email_col + 1)
                             (option_map source_label (source result)) ;;
                 update_cell row_num (email_col + 2)
                             (Some (confidence_label (confidence result))) ;;
                 ret (success_count + 1)%Z
               else
                 update_cell row_num email_col (Some NOT_FOUND) ;;
                 update_cell row_num (email_col + 2) (Some "NONE") ;;
                 ret success_count) ;;
            on_session (sleep 3) ;;
            crawl_rows all_data email_col rest success_count
          else crawl_rows all_data email_col rest success_count
      | None => crawl_rows all_data email_col rest success_count
      end
  end.

(** The closing log line formats [success_count/total_count*100]; the
    division raises when [total_count] is zero. *)
Definition report (success_count total_count : Z) : M Desk unit :=
  if (total_count =? 0)%Z then raise "division by zero" else ret tt.

(** The batch run of email_crawler.py.  Every exception is logged and
    raised again.  (The Render variant reads the delay between rows
    from the environment first and is otherwise the same.) *)
Definition crawl_all_companies (start_row : Z) (end_row : option Z)
  : M Desk unit :=
  try_except
    (email_col <- add_email_column ;;
     match email_col with
     | None => ret tt
     | Some col =>
         if (col =? 0)%Z then ret tt
         else
           all_data <- of_outcome (get_all_values sheet) ;;
           let end_row :=
             match end_row with
             | None => Z.of_nat (List.length all_data)
             | Some e => e
             end in
           let total_count := (end_row - start_row + 1)%Z in
           let success_count := 0%Z in
           success_count <-
             crawl_rows all_data col (py_range (start_row - 1) end_row)
                        success_count ;;
           report success_count total_count
     end)
    (fun e => raise e).

End Batch.
End Spreadsheet.

(** ** Vocabulary of the further statements *)

Module Derived.
Import Text Regex Browser Crawler Terms Spreadsheet.

(** The URLs navigated to, in order, among recorded events. *)
Fixpoint navigations (evs : list Event) : list string :=
  match evs with
  | [] => []
  | Navigate url :: rest => url :: navigations rest
  | _ :: rest => navigations rest
  end.

(** The number of clicks among recorded events. *)
Fixpoint clicks (evs : list Event) : nat :=
  match evs with
  | [] => 0
  | Click :: rest => S (clicks rest)
  | _ :: rest => clicks rest
  end.

(** A candidate mentions one of the portal's names. *)
Definition mentions_portal (e : string) : Prop :=
  occurs "naver.com" e \/ occurs "google.com" e.

(** A candidate contains one of the priority keywords. *)
Definition has_priority (e : string) : Prop :=
  exists k, In k priority_keywords /\ occurs k (lower e).

(** What the website stage answers for a URL. *)
Definition website_of (web : Web) (url : option string) : option string :=
  match url with
  | None => None
  | Some u =>
      if u =? "" then None
      else match web (normalized u) with
           | Ok home => website_answer home
           | Raised _ => None
           end
  end.

(** The events the website stage adds after the note of its own
    invocation: one navigation unless the URL is missing or empty, and
    one click when the page loaded and has a contact link. *)
Definition website_moves (web : Web) (url : option string) : list Event :=
  match url with
  | None => []
  | Some u =>
      if u =? "" then []
      else Navigate (normalized u)
             :: match web (normalized u) with
                | Ok home =>
                    match contact_links home with
                    | Ok (_ :: _) => [Click]
                    | _ => []
                    end
                | Raised _ => []
                end
  end.

(** The page the session shows after the website stage. *)
Definition website_page (web : Web) (url : option string) (before : Page)
  : Page :=
  match url with
  | None => before
  | Some u =>
      if u =? "" then before
      else match web (normalized u) with
           | Ok home =>
               match contact_links home with
               | Ok (Ok lp :: _) => lp
               | _ => home
               end
           | Raised _ => before
           end
  end.

Definition after_website (web : Web) (url : option string) (s : Session)
  : Session :=
  {| current := website_page web url (current s);
     events := (events s
                ++ Invoke_extract_email_from_website url
                   :: website_moves web url)%list |}.

(** What the search stage answers for a company. *)
Definition listing_of (web : Web) (name : string) : NaverResult :=
  match web (search_url name) with
  | Ok p => extracted p
  | Raised _ => no_data
  end.

(** The page shown after the search stage. *)
Definition listing_page (web : Web) (name : string) (before : Page) : Page :=
  match web (search_url name) with
  | Ok p => p
  | Raised _ => before
  end.

(** The website stage runs: no email from the search stage, and a
    homepage. *)
Definition falls_back (nr : NaverResult) : bool :=
  negb (truthy (n_email nr)) && truthy (n_homepage nr).

(** What [find_email] answers for a company. *)
Definition answer (web : Web) (name : string) : DiscoveryResult :=
  let nr := listing_of web name in
  if truthy (n_email nr) then
    {| email := n_email nr; source := Some NaverPlace; confidence := HIGH |}
  else if falls_back nr && truthy (website_of web (n_homepage nr)) then
    {| email := website_of web (n_homepage nr);
       source := Some CompanyHomepage; confidence := MEDIUM |}
  else {| email := None; source := None; confidence := LOW |}.

(** The session [find_email] leaves. *)
Definition after_lookup (web : Web) (name : string) (s : Session) : Session :=
  let s1 := after_search name (listing_page web name (current s)) s in
  if falls_back (listing_of web name)
  then after_website web (n_homepage (listing_of web name)) s1
  else s1.

(** The calls of [update_cell] the batch run makes for one row: none for
    a row without company name, three for a company with an email, two
    for a company without. *)
Definition row_writes (web : Web) (email_col row_num : Z)
           (row_data : list string) : list Write :=
  match cell row_data 1 with
  | None => []
  | Some name =>
      if name =? "" then []
      else
        let r := answer web name in
        if truthy (email r) then
          [ {| w_row := row_num; w_col := email_col; w_value := email r |};
            {| w_row := row_num; w_col := (email_col + 1)%Z;
               w_value := option_map source_label (source r) |};
            {| w_row := row_num; w_col := (email_col + 2)%Z;
               w_value := Some (confidence_label (confidence r)) |} ]
        else
          [ {| w_row := row_num; w_col := email_col;
               w_value := Some NOT_FOUND |};
            {| w_row := row_num; w_col := (email_col + 2)%Z;
               w_value := Some "NONE" |} ]
  end.

(** The session after the lookups of the rows [rows], one after the
    other. *)
Fixpoint after_rows (web : Web) (rows : list (list string)) (s : Session)
  : Session :=
  match rows with
  | [] => s
  | row_data :: rest =>
      match cell row_data 1 with
      | None => after_rows web rest s
      | Some name =>
          if name =? "" then after_rows web rest s
          else after_rows web rest (after_lookup web name s)
      end
  end.

(** The three header cells [add_email_column] writes after [n] existing
    headers. *)
Definition header_writes (n : nat) : list Write :=
  [ {| w_row := 1; w_col := (Z.of_nat n + 1)%Z; w_value := Some EMAIL_HEADER |};
    {| w_row := 1; w_col := (Z.of_nat n + 2)%Z; w_value := Some SOURCE_HEADER |};
    {| w_row := 1; w_col := (Z.of_nat n + 3)%Z;
       w_value := Some CONFIDENCE_HEADER |} ].

(** Every call of [update_cell] succeeds. *)
Definition writable (sheet : Sheet) : Prop :=
  forall before w, update_cell_result sheet before w = Ok tt.

End Derived.

(** ** Sample worksheets *)

Module SheetSamples.
Import Text Browser Crawler Spreadsheet Samples.

Definition accepts_all : list Write -> Write -> Outcome unit :=
  fun _ _ => Ok tt.

(** Three data rows under a header row: a company, a row with an empty
    name, a row with one cell only. *)
Definition ledger : Sheet :=
  {| row_values_1 := Ok ["No"; "Company"; "CEO"];
     get_all_values := Ok [["No"; "Company"; "CEO"];
                           ["1"; "acme"; "Kim"];
                           ["2"; ""; "Lee"];
                           ["3"]];
     update_cell_result := accepts_all |}.

(** A sheet that has the email column already, and a header row only. *)
Definition header_only : Sheet :=
  {| row_values_1 := Ok ["No"; "Company"; "CEO"; EMAIL_HEADER];
     get_all_values := Ok [["No"; "Company"; "CEO"; EMAIL_HEADER]];
     update_cell_result := accepts_all |}.

(** A sheet whose header row cannot be read. *)
Definition unreadable : Sheet :=
  {| row_values_1 := Raised "APIError";
     get_all_values := Ok [];
     update_cell_result := accepts_all |}.

Definition desk : Desk := (fresh, []).

End SheetSamples.

(** ** The occurrences a scan lists *)

Module Occurrence.
Import Text Regex.

(** The last character of [a], or [prev] when [a] is empty: the
    character that stands before whatever follows [a]. *)
Fixpoint last_of (prev : option ascii) (a : string) : option ascii :=
  match a with
  | EmptyString => prev
  | String c a' => last_of (Some c) a'
  end.

(** No match of [p] starts at any position of [gap], where [gap] is
    preceded by [prev] and followed by [tail]. *)
Definition quiet (p : pattern) (prev : option ascii) (gap tail : string)
  : Prop :=
  forall a b,
    gap = a ++ b -> b <> "" ->
    match_here p (last_of prev a) (b ++ tail) = None.

(** [ms] is the sequence of occurrences of [p] in the text, read from
    left to right: the text is a gap in which no match starts, then the
    first string of [ms], which is what [p] matches where it stands,
    then the rest of the text, which holds the rest of [ms] in the same
    way; after the last one no match starts any more.  Equal strings at
    different places are different occurrences. *)
Inductive occurrences (p : pattern)
  : option ascii -> string -> list string -> Prop :=
| occurrences_none : forall prev text,
    quiet p prev text "" ->
    occurrences p prev text []
| occurrences_next : forall prev gap m rest ms,
    quiet p prev gap (m ++ rest) ->
    m <> "" ->
    match_here p (last_of prev gap) (m ++ rest) = Some (String.length m) ->
    occurrences p (last_of prev (gap ++ m)) rest ms ->
    occurrences p prev (gap ++ m ++ rest) (m :: ms).

End Occurrence.

(** ** Facts about texts *)

Module TextFacts.
Import Text Terms.

Lemma app_empty_r (s : string) : s ++ "" = s.
Proof. induction s as [|c s IH]; simpl; [reflexivity | now rewrite IH]. Qed.

Lemma app_assoc (a b c : string) : (a ++ b) ++ c = a ++ b ++ c.
Proof. induction a as [|x a IH]; simpl; [reflexivity | now rewrite IH]. Qed.

Lemma length_app (a b : string) :
  String.length (a ++ b) = String.length a + String.length b.
Proof. induction a as [|x a IH]; simpl; [reflexivity | now rewrite IH]. Qed.

Lemma take_drop (n : nat) (s : string) : take n s ++ drop n s = s.
Proof.
  revert s; induction n as [|n IH]; intros [|c s]; simpl; try reflexivity.
  now rewrite IH.
Qed.

Lemma take_length (n : nat) (s : string) :
  n <= String.length s -> String.length (take n s) = n.
Proof.
  revert s; induction n as [|n IH]; intros [|c s]; simpl; intros H;
    try reflexivity; try lia.
  rewrite IH; lia.
Qed.

Lemma take_add (n m : nat) (s : string) :
  n <= String.length s -> take (n + m) s = take n s ++ take m (drop n s).
Proof.
  revert s; induction n as [|n IH]; intros s H; simpl.
  - now destruct s.
  - destruct s as [|c s]; simpl in *; [lia|].
    rewrite IH by lia. reflexivity.
Qed.

Lemma drop_length (n : nat) (s : string) :
  String.length (drop n s) = String.length s - n.
Proof.
  revert s; induction n as [|n IH]; intros [|c s]; simpl; try lia.
  apply IH.
Qed.

(** [prefix] is [str.startswith]: the text begins with the given string. *)
Lemma prefix_spec (p s : string) :
  prefix p s = true <-> exists t, s = p ++ t.
Proof.
  revert s; induction p as [|c p IH]; intros s.
  - destruct s; simpl; split; eauto.
  - destruct s as [|d s]; simpl.
    + split; [discriminate | intros [t H]; discriminate].
    + destruct (ascii_dec c d) as [->|N].
      * rewrite IH. split; intros [t H]; exists t.
        -- now rewrite H.
        -- now injection H.
      * split; [discriminate|]. intros [t H]. injection H as E _. congruence.
Qed.

(** [contains] is the [in] operator of strings. *)
Lemma contains_spec (sub s : string) :
  contains sub s = true <-> occurs sub s.
Proof.
  unfold occurs. induction s as [|c s IH].
  - cbn [contains]. rewrite orb_false_r, prefix_spec. split.
    + intros [t H]. exists "", t. exact H.
    + intros [a [b H]]. destruct a; simpl in H; [eauto|discriminate].
  - cbn [contains]. rewrite orb_true_iff, IH, prefix_spec. split.
    + intros [[t H] | [a [b H]]].
      * exists "", t. exact H.
      * exists (String c a), b. simpl. now rewrite H.
    + intros [a [b H]]. destruct a as [|x a]; simpl in H.
      * left. eauto.
      * right. injection H as _ H. eauto.
Qed.

Lemma contains_false (sub s : string) :
  contains sub s = false <-> ~ occurs sub s.
Proof.
  rewrite <- contains_spec. destruct (contains sub s); split; congruence.
Qed.

Lemma truthy_spec (o : option string) :
  truthy o = true <-> exists s, o = Some s /\ s <> "".
Proof.
  destruct o as [s|]; simpl.
  - rewrite negb_true_iff, String.eqb_neq. split.
    + eauto.
    + intros [t [E N]]. now injection E as ->.
  - split; [discriminate | intros [s [E _]]; discriminate].
Qed.

End TextFacts.

(** ** Facts about the matcher *)

Module RegexFacts.
Import Text Regex Terms TextFacts.

Lemma drop_0 (s : string) : drop 0 s = s.
Proof. now destruct s. Qed.

Lemma in_order_app (a : string) (ms : list string) (t : string) :
  in_order ms t -> in_order ms (a ++ t).
Proof.
  intros H. destruct H as [t | gap m ms rest H].
  - constructor.
  - rewrite <- app_assoc. now constructor.
Qed.

Lemma in_order_filter (f : string -> bool) (ms : list string) (t : string) :
  in_order ms t -> in_order (filter f ms) t.
Proof.
  induction 1 as [t | gap m ms rest H IH]; simpl.
  - constructor.
  - destruct (f m).
    + now constructor.
    + rewrite <- app_assoc. now apply in_order_app.
Qed.

(** The scan lists its matches in text order; a match begins where the
    characters still to skip end. *)
Lemma scan_in_order (p : pattern) (s : string) :
  forall skip prev, in_order (scan p skip prev s) (drop skip s).
Proof.
  induction s as [|c s IH]; intros skip prev.
  - simpl. constructor.
  - destruct skip as [|k].
    + cbn [scan]. rewrite drop_0.
      destruct (match_here p prev (String c s)) as [[|n]|] eqn:E.
      * specialize (IH 0 (Some c)). rewrite drop_0 in IH.
        now apply (in_order_app (String c "")) in IH.
      * rewrite <- (take_drop (S n) (String c s)) at 2.
        change (in_order (take (S n) (String c s) :: scan p n (Some c) s)
                         ("" ++ take (S n) (String c s) ++ drop n s)).
        constructor. apply IH.
      * specialize (IH 0 (Some c)). rewrite drop_0 in IH.
        now apply (in_order_app (String c "")) in IH.
    + cbn [scan]. simpl drop. apply IH.
Qed.

Lemma span_le (cs : class) (s : string) : span cs s <= String.length s.
Proof.
  induction s as [|c s IH]; simpl; [lia|].
  destruct (in_class cs c); lia.
Qed.

Lemma span_take (cs : class) (s : string) :
  forall k, k <= span cs s -> Spec.all_chars (in_class cs) (take k s) = true.
Proof.
  induction s as [|c s IH]; intros [|k] H; try reflexivity.
  cbn [span] in H. destruct (in_class cs c) eqn:E; [|lia].
  cbn [take Spec.all_chars]. rewrite E. apply IH. lia.
Qed.

(** What a successful backtracking run found: a repetition count within
    bounds after which the rest of the pattern matched. *)
Lemma backtrack_some rest prev s lo :
  forall k n,
    backtrack rest prev s lo k = Some n ->
    exists j m,
      j <= k /\ lo <= j
      /\ rest (char_before prev s j) (drop j s) = Some m /\ n = j + m.
Proof.
  induction k as [|k IH]; intros n H; cbn [backtrack] in H.
  - destruct (Nat.ltb 0 lo) eqn:L; [discriminate|].
    apply Nat.ltb_ge in L.
    destruct (rest (char_before prev s 0) (drop 0 s)) as [m|] eqn:R;
      [|discriminate].
    injection H as <-. exists 0, m. auto.
  - destruct (Nat.ltb (S k) lo) eqn:L; [discriminate|].
    apply Nat.ltb_ge in L.
    destruct (rest (char_before prev s (S k)) (drop (S k) s)) as [m|] eqn:R.
    + injection H as <-. exists (S k), m. auto.
    + destruct (IH _ H) as [j [m [Hj [Hlo [Hr Hn]]]]].
      exists j, m. auto.
Qed.

(** A match lies within the text and has the form of the pattern. *)
Lemma match_here_shape (p : pattern) :
  forall prev s n,
    match_here p prev s = Some n ->
    n <= String.length s /\ shape p (take n s).
Proof.
  induction p as [|a p IH]; intros prev s n H.
  - injection H as <-. split; [lia | now destruct s].
  - destruct a as [|c|cs lo]; cbn [match_here] in H.
    + destruct (at_boundary prev s); [|discriminate].
      exact (IH _ _ _ H).
    + destruct s as [|c' s]; [discriminate|].
      destruct (Ascii.eqb c' c) eqn:E; [|discriminate].
      apply Ascii.eqb_eq in E. subst c'.
      destruct (match_here p (Some c) s) as [m|] eqn:R; [|discriminate].
      injection H as <-. destruct (IH _ _ _ R) as [Hm Hs].
      split; [simpl; lia|]. simpl. eauto.
    + destruct (backtrack_some _ _ _ _ _ H) as [j [m [Hj [Hlo [Hr ->]]]]].
      destruct (IH _ _ _ Hr) as [Hm Hs].
      pose proof (span_le cs s) as Hspan.
      rewrite drop_length in Hm.
      split; [lia|].
      simpl. exists (take j s), (take m (drop j s)).
      rewrite take_length by lia.
      repeat split; auto.
      * apply take_add. lia.
      * now apply span_take.
Qed.

Lemma scan_shape (p : pattern) (s : string) :
  forall skip prev e, In e (scan p skip prev s) -> shape p e.
Proof.
  induction s as [|c s IH]; intros skip prev e H.
  - contradiction.
  - destruct skip as [|k]; cbn [scan] in H.
    + destruct (match_here p prev (String c s)) as [[|n]|] eqn:E.
      * eapply IH; eauto.
      * destruct H as [<- | H].
        -- now apply match_here_shape in E.
        -- eapply IH; eauto.
      * eapply IH; eauto.
    + eapply IH; eauto.
Qed.

(** Every string returned by [findall] reads local-part, [@], domain,
    dot, top-level part, each over its bracket expression. *)
Lemma findall_form (text e : string) :
  In e (findall text) ->
  exists loc dom tld,
    e = loc ++ "@" ++ dom ++ "." ++ tld
    /\ 1 <= String.length loc
    /\ Spec.all_chars (in_class local_class) loc = true
    /\ 1 <= String.length dom
    /\ Spec.all_chars (in_class domain_class) dom = true
    /\ 2 <= String.length tld
    /\ Spec.all_chars (in_class tld_class) tld = true.
Proof.
  intros H. apply scan_shape in H. cbn [shape email_pattern] in H.
  destruct H as (loc & m1 & -> & Lloc & Aloc & m2 & -> & H).
  destruct H as (dom & m3 & -> & Ldom & Adom & m4 & -> & H).
  destruct H as (tld & m5 & -> & Ltld & Atld & ->).
  exists loc, dom, tld. rewrite app_empty_r. repeat split; auto.
Qed.

Lemma findall_nonempty (text e : string) : In e (findall text) -> e <> "".
Proof.
  intros H. destruct (findall_form _ _ H) as [loc [dom [tld [-> [L _]]]]].
  destruct loc; simpl in *; [lia | discriminate].
Qed.

Lemma all_chars_app (f : ascii -> bool) (a b : string) :
  Spec.all_chars f (a ++ b) = Spec.all_chars f a && Spec.all_chars f b.
Proof.
  induction a as [|c a IH]; simpl; [reflexivity|].
  now rewrite IH, andb_assoc.
Qed.

Lemma all_chars_weaken (f g : ascii -> bool) (t : string) :
  (forall c, f c = true -> g c = true) ->
  Spec.all_chars f t = true -> Spec.all_chars g t = true.
Proof.
  intros Hfg. induction t as [|c t IH]; simpl; [reflexivity|].
  rewrite !andb_true_iff. intros [H1 H2]. auto.
Qed.

Lemma domain_class_in_local (c : ascii) :
  in_class domain_class c = true -> in_class local_class c = true.
Proof.
  destruct c as [[] [] [] [] [] [] [] []]; vm_compute; auto.
Qed.

Lemma letter_in_local (c : ascii) :
  Spec.is_letter c = true -> in_class local_class c = true.
Proof.
  destruct c as [[] [] [] [] [] [] [] []]; vm_compute; auto.
Qed.

(** A string of the email grammar is made of the characters of the
    local-part class and [@]; in particular it has no bar. *)
Lemma email_grammar_chars (s : string) :
  Spec.email_grammar s ->
  Spec.all_chars (fun c => in_class local_class c || Ascii.eqb c "@") s = true.
Proof.
  intros (loc & dom & tld & -> & _ & Aloc & _ & Adom & _ & Atld).
  set (ok := fun c => in_class local_class c || Ascii.eqb c "@").
  assert (L : forall c, in_class local_class c = true -> ok c = true).
  { intros c H. unfold ok. now rewrite H. }
  rewrite !all_chars_app.
  rewrite (all_chars_weaken _ ok _ L Aloc).
  rewrite (all_chars_weaken _ ok _
             (fun c H => L c (domain_class_in_local c H)) Adom).
  rewrite (all_chars_weaken _ ok _
             (fun c H => L c (letter_in_local c H)) Atld).
  reflexivity.
Qed.

End RegexFacts.

(** ** Facts about the methods *)

Module CrawlerFacts.
Import Text Regex Browser Crawler Terms TextFacts RegexFacts.
Open Scope monad_scope.

Ltac run_monad :=
  unfold bind, try_except, ret, raise, of_outcome, on_session, update,
    with_local, record, sleep; cbn [fst snd].

(** *** The selection among candidates *)

Lemma first_with_some (k : string) (es : list string) (e : string) :
  first_with k es = Some e ->
  exists es1 es2,
    es = (es1 ++ e :: es2)%list
    /\ (forall x, In x es1 -> contains k (lower x) = false)
    /\ contains k (lower e) = true.
Proof.
  induction es as [|x es IH]; simpl; [discriminate|].
  destruct (contains k (lower x)) eqn:E.
  - intros [= ->]. exists [], es. simpl. tauto.
  - intros H. destruct (IH H) as (es1 & es2 & -> & Hn & Hy).
    exists (x :: es1), es2. simpl. repeat split; auto.
    intros y [<- | Hy']; auto.
Qed.

Lemma first_with_none (k : string) (es : list string) :
  first_with k es = None ->
  forall x, In x es -> contains k (lower x) = false.
Proof.
  induction es as [|x es IH]; simpl; [tauto|].
  destruct (contains k (lower x)) eqn:E; [discriminate|].
  intros H y [<- | Hy]; auto.
Qed.

Lemma by_priority_some (ks es : list string) (e : string) :
  by_priority ks es = Some e ->
  exists ks1 k ks2,
    ks = (ks1 ++ k :: ks2)%list
    /\ (forall k' x, In k' ks1 -> In x es -> contains k' (lower x) = false)
    /\ first_with k es = Some e.
Proof.
  induction ks as [|k ks IH]; simpl; [discriminate|].
  destruct (first_with k es) as [e'|] eqn:E.
  - intros [= ->]. exists [], k, ks. simpl. tauto.
  - intros H. destruct (IH H) as (ks1 & k1 & ks2 & -> & Hn & Hy).
    exists (k :: ks1), k1, ks2. simpl. repeat split; auto.
    intros k' x [<- | Hk] Hx; eauto using first_with_none.
Qed.

Lemma by_priority_none (ks es : list string) :
  by_priority ks es = None ->
  forall k x, In k ks -> In x es -> contains k (lower x) = false.
Proof.
  induction ks as [|k ks IH]; simpl; [tauto|].
  destruct (first_with k es) as [e'|] eqn:E; [discriminate|].
  intros H k' x [<- | Hk] Hx; eauto using first_with_none.
Qed.

(** *** The search stage *)

Lemma homepage_loop_run (elems : list LinkElement) (s : Session) (r : NaverResult) :
  homepage_loop elems (s, r) =
  match first_accepted elems with
  | Ok (Some h) => (Ok tt, (s, set_homepage h r))
  | Ok None => (Ok tt, (s, r))
  | Raised e => (Raised e, (s, r))
  end.
Proof.
  induction elems as [|elem rest IH]; cbn [homepage_loop first_accepted].
  - reflexivity.
  - run_monad. destruct (get_attribute_href elem) as [[h|]|e]; auto.
    destruct (href_accepted (Some h)); auto.
Qed.

(** The search stage on a page that loads. *)
Lemma search_loaded (web : Web) (name : string) (s : Session) (p : Page) :
  web (search_url name) = Ok p ->
  search_naver_place web name s = (Ok (extracted p), after_search name p s).
Proof.
  intros W. unfold search_naver_place, driver_get, place_info, extracted,
    after_search, find_phone_elements, find_homepage_elements,
    driver_page_source, phone_of, homepage_of, email_of.
  run_monad. cbn [current events]. rewrite W. run_monad. cbn [current events].
  destruct (phone_elements p) as [[|first rest]|e]; run_monad;
    cbn [current]; try reflexivity.
  - destruct (homepage_elements p) as [elems|e]; run_monad; try reflexivity.
    rewrite homepage_loop_run.
    destruct (first_accepted elems) as [[h|]|e]; run_monad; cbn [current];
      try reflexivity;
      (destruct (page_source p) as [src|e]; run_monad; try reflexivity;
       destruct (valid_emails (findall src)); reflexivity).
  - destruct (text first) as [t|e]; run_monad; cbn [current]; try reflexivity.
    destruct (homepage_elements p) as [elems|e]; run_monad; try reflexivity.
    rewrite homepage_loop_run.
    destruct (first_accepted elems) as [[h|]|e]; run_monad; cbn [current];
      try reflexivity;
      (destruct (page_source p) as [src|e]; run_monad; try reflexivity;
       destruct (valid_emails (findall src)); reflexivity).
Qed.

(** The search stage when the navigation fails. *)
Lemma search_failed (web : Web) (name : string) (s : Session) (e : string) :
  web (search_url name) = Raised e ->
  search_naver_place web name s = (Ok no_data, after_search name (current s) s).
Proof.
  intros W. unfold search_naver_place, driver_get, after_search.
  run_monad. cbn [current events]. rewrite W. reflexivity.
Qed.

(** The search stage always returns, and adds its two events. *)
Lemma search_returns (web : Web) (name : string) (s : Session) :
  exists nr p, search_naver_place web name s = (Ok nr, after_search name p s).
Proof.
  destruct (web (search_url name)) as [p|e] eqn:W.
  - exists (extracted p), p. now apply search_loaded.
  - exists no_data, (current s). now apply search_failed with (e := e).
Qed.

Lemma website_calls_app (a b : list Event) :
  website_calls (a ++ b) = website_calls a + website_calls b.
Proof.
  induction a as [|[| | |] a IH]; simpl; auto.
Qed.

Lemma website_calls_after_search (name : string) (p : Page) (s : Session) :
  website_calls (events (after_search name p s)) = website_calls (events s).
Proof.
  unfold after_search. cbn [events]. rewrite !website_calls_app. simpl. lia.
Qed.

(** *** The website stage *)

Lemma website_falsy (web : Web) (url : option string) (s : Session) :
  truthy url = false ->
  exists s', extract_email_from_website web url s = (Ok None, s').
Proof.
  intros T. unfold extract_email_from_website. run_monad.
  destruct url as [u|]; [|eauto].
  simpl in T. apply negb_false_iff in T. rewrite T. eauto.
Qed.

Lemma website_unreachable (web : Web) (u : string) (s : Session) (e : string) :
  web (normalized u) = Raised e ->
  exists s', extract_email_from_website web (Some u) s = (Ok None, s').
Proof.
  intros W. unfold extract_email_from_website, driver_get. run_monad.
  destruct (u =? "") eqn:E; [eauto|].
  fold (normalized u). rewrite W. eauto.
Qed.

Lemma website_loaded (web : Web) (u : string) (s : Session) (home : Page) :
  u <> "" ->
  web (normalized u) = Ok home ->
  exists s',
    extract_email_from_website web (Some u) s = (Ok (website_answer home), s').
Proof.
  intros N W. apply String.eqb_neq in N.
  unfold extract_email_from_website, driver_get, find_contact_links, click,
    driver_page_source, website_answer, landing.
  run_monad. rewrite N. fold (normalized u). rewrite W. run_monad.
  cbn [current events].
  destruct (contact_links home) as [[|first rest]|e]; run_monad; cbn [current].
  - destruct (page_source home); eauto.
  - destruct first as [lp|e]; run_monad; cbn [current]; [|eauto].
    destruct (page_source lp); eauto.
  - eauto.
Qed.

(** The website stage always returns. *)
Lemma website_returns (web : Web) (url : option string) (s : Session) :
  exists v s', extract_email_from_website web url s = (Ok v, s').
Proof.
  destruct (truthy url) eqn:T.
  - apply truthy_spec in T. destruct T as (u & -> & N).
    destruct (web (normalized u)) as [home|e] eqn:W.
    + destruct (website_loaded _ s N W) as [s' H]. eauto.
    + destruct (website_unreachable _ _ s W) as [s' H]. eauto.
  - destruct (website_falsy web _ s T) as [s' H]. eauto.
Qed.

(** *** The orchestrator *)

(** [find_email] always returns: both stages do. *)
Lemma find_email_returns
  (web : Web) (name : string) (representative : option string) (s : Session) :
  exists r s', find_email web name representative s = (Ok r, s').
Proof.
  destruct (search_returns web name s) as (nr & p & Hs).
  unfold find_email, bind. rewrite Hs.
  destruct (truthy (n_email nr)); [eexists _, _; reflexivity|].
  destruct (truthy (n_homepage nr)); [|eexists _, _; reflexivity].
  destruct (website_returns web (n_homepage nr) (after_search name p s))
    as (v & s' & Hw).
  rewrite Hw. destruct (truthy v); eexists _, _; reflexivity.
Qed.

(** *** The two filters on the portal's names *)

Lemma ends_with_spec (d s : string) :
  Spec.ends_with d s = true -> exists a, s = a ++ d.
Proof.
  induction s as [|c s IH]; cbn [Spec.ends_with]; rewrite orb_true_iff.
  - intros [H | H]; [|discriminate].
    apply String.eqb_eq in H. exists "". now rewrite <- H.
  - intros [H | H].
    + apply String.eqb_eq in H. exists "". now rewrite <- H.
    + destruct (IH H) as [a ->]. now exists (String c a).
Qed.

Lemma domain_suffix (e : string) : exists a, e = a ++ Spec.domain e.
Proof.
  induction e as [|c e IH]; simpl.
  - now exists "".
  - destruct (Ascii.eqb c "@").
    + now exists (String c "").
    + destruct IH as [a H]. exists (String c a). simpl. now rewrite <- H.
Qed.

Lemma domain_excluded_occurs (e : string) :
  Spec.domain_excluded e = true ->
  occurs "naver.com" e \/ occurs "google.com" e.
Proof.
  unfold Spec.domain_excluded, Spec.excluded_domains. cbn [existsb].
  rewrite orb_false_r, orb_true_iff.
  destruct (domain_suffix e) as [a Ha].
  intros [H | H]; apply ends_with_spec in H; destruct H as [b Hb];
    [left | right]; exists (a ++ b), ""; rewrite app_empty_r, app_assoc;
    now rewrite <- Hb.
Qed.

Lemma href_accepted_spec (h : string) :
  href_accepted (Some h) = true <->
  h <> "" /\ ~ occurs "naver.com" h /\ ~ occurs "google.com" h.
Proof.
  unfold href_accepted. cbn [truthy].
  rewrite !andb_true_iff, !negb_true_iff, String.eqb_neq, !contains_false.
  tauto.
Qed.

Lemma href_rejected (href : option string) :
  href_accepted href = false -> passed_over href.
Proof.
  destruct href as [h|]; cbn [passed_over]; [|trivial].
  unfold href_accepted. cbn [truthy].
  rewrite !andb_false_iff, !negb_false_iff, String.eqb_eq, !contains_spec.
  tauto.
Qed.

(** The homepage loop over links that all read without error: it stops
    at the first link it accepts. *)
Lemma first_accepted_links (hrefs : list (option string)) :
  (exists pre h post,
      hrefs = (pre ++ Some h :: post)%list
      /\ Forall passed_over pre
      /\ href_accepted (Some h) = true
      /\ first_accepted (map link_of hrefs) = Ok (Some h))
  \/ (Forall passed_over hrefs
      /\ first_accepted (map link_of hrefs) = Ok None).
Proof.
  induction hrefs as [|x hrefs IH]; cbn [map first_accepted link_of get_attribute_href].
  - right. split; [constructor | reflexivity].
  - destruct (href_accepted x) eqn:E.
    + left. destruct x as [h|]; [|discriminate].
      exists [], h, hrefs. repeat split; auto.
    + apply href_rejected in E.
      destruct IH as [(pre & h & post & -> & Hp & Ha & Hf) | [Hp Hf]].
      * left. exists (x :: pre), h, post. repeat split; auto.
      * right. split; auto.
Qed.

End CrawlerFacts.

(** ** The tiered lookup *)

Module Orchestrator.
Import Text Regex Browser Crawler Terms TextFacts RegexFacts CrawlerFacts.
Import Samples.

(** C1.  Whenever the search stage yields a non-empty email, [find_email]
    returns that email with source [NaverPlace] and confidence [HIGH] in
    the very session the search stage left, and the record of events
    holds no further invocation of the website stage. *)
Theorem C1_search_email_short_circuits
  (web : Web) (name : string) (representative : option string)
  (s s1 : Session) (nr : NaverResult) :
  search_naver_place web name s = (Ok nr, s1) ->
  truthy (n_email nr) = true ->
  find_email web name representative s
  = (Ok {| email := n_email nr; source := Some NaverPlace; confidence := HIGH |},
     s1)
  /\ website_calls (events s1) = website_calls (events s).
Proof.
  intros Hs T. split.
  - unfold find_email, bind. rewrite Hs, T. reflexivity.
  - destruct (search_returns web name s) as (nr' & p & H).
    rewrite Hs in H. injection H as _ ->.
    apply website_calls_after_search.
Qed.

Lemma C1_witness :
  search_naver_place (serve listed) "acme" fresh
  = (Ok {| n_email := Some "sales@acme.kr";
           n_homepage := Some "http://acme.kr";
           n_phone := Some "02-123-4567" |},
     after_search "acme" listed fresh)
  /\ find_email (serve listed) "acme" (Some "Kim") fresh
     = (Ok {| email := Some "sales@acme.kr";
              source := Some NaverPlace;
              confidence := HIGH |},
        after_search "acme" listed fresh)
  /\ website_calls (events (after_search "acme" listed fresh)) = 0.
Proof.
  assert (H : search_naver_place (serve listed) "acme" fresh
              = (Ok {| n_email := Some "sales@acme.kr";
                       n_homepage := Some "http://acme.kr";
                       n_phone := Some "02-123-4567" |},
                 after_search "acme" listed fresh)) by (vm_compute; reflexivity).
  split; [exact H|].
  exact (C1_search_email_short_circuits (serve listed) "acme" (Some "Kim")
           fresh H eq_refl).
Defined.

(** C2.  [find_email] always returns, and in its result the confidence
    and the source determine each other: [HIGH] with the search stage,
    [MEDIUM] with the website stage, [LOW] with no source; a result
    without source is exactly [{None, None, LOW}]. *)
Theorem C2_confidence_determined_by_source
  (web : Web) (name : string) (representative : option string) (s : Session) :
  exists r s',
    find_email web name representative s = (Ok r, s')
    /\ (confidence r = HIGH <-> source r = Some NaverPlace)
    /\ (confidence r = MEDIUM <-> source r = Some CompanyHomepage)
    /\ (confidence r = LOW <-> source r = None)
    /\ (source r = None ->
        r = {| email := None; source := None; confidence := LOW |}).
Proof.
  destruct (search_returns web name s) as (nr & p & Hs).
  unfold find_email, bind. rewrite Hs.
  destruct (truthy (n_email nr)).
  - eexists _, _. split; [reflexivity|]. cbn.
    repeat split; intros; congruence.
  - destruct (truthy (n_homepage nr)).
    + destruct (website_returns web (n_homepage nr) (after_search name p s))
        as (v & s' & Hw).
      rewrite Hw. destruct (truthy v).
      * eexists _, _. split; [reflexivity|]. cbn.
        repeat split; intros; congruence.
      * eexists _, _. split; [reflexivity|]. cbn.
        repeat split; intros; congruence.
    + eexists _, _. split; [reflexivity|]. cbn.
      repeat split; intros; congruence.
Qed.

(** C10.  The representative is accepted and never read: two runs on
    the same remote content and from the same session that differ only
    in it (given, or left at its default [None]) both return, with the
    same result, and leave the same session. *)
Theorem C10_representative_is_ignored
  (web : Web) (name : string) (r1 r2 : option string) (s : Session) :
  exists r s',
    find_email web name r1 s = (Ok r, s')
    /\ find_email web name r2 s = (Ok r, s').
Proof.
  destruct (find_email_returns web name r1 s) as (r & s' & H).
  exists r, s'. split; [exact H|].
  rewrite <- H. reflexivity.
Qed.

(** The three end-to-end scenarios: an address on the listing; none on
    the listing but one behind the contact link of the homepage; nothing
    reachable at all. *)
Example scenario_listing_has_email :
  fst (find_email (serve listed) "acme" None fresh)
  = Ok {| email := Some "sales@acme.kr";
          source := Some NaverPlace; confidence := HIGH |}.
Proof. vm_compute. reflexivity. Qed.

Example scenario_contact_page_has_email :
  find_email (serve links_only) "acme" None fresh
  = (Ok {| email := Some "info@acme.kr";
           source := Some CompanyHomepage; confidence := MEDIUM |},
     {| current := contact_page;
        events := [Invoke_search_naver_place "acme";
                   Navigate (search_url "acme");
                   Invoke_extract_email_from_website (Some "http://acme.kr");
                   Navigate "http://acme.kr";
                   Click] |}).
Proof. vm_compute. reflexivity. Qed.

Example scenario_nothing_found :
  fst (find_email offline "acme" None fresh)
  = Ok {| email := None; source := None; confidence := LOW |}.
Proof. vm_compute. reflexivity. Qed.

End Orchestrator.

(** ** Extraction and ranking of candidates *)

Module Extractor.
Import Text Regex Browser Crawler Terms TextFacts RegexFacts CrawlerFacts.

(** C3, as stated, fails: on the claim's own example the code answers
    boss@ceo.com because "ceo" occurs in the domain, while matching on
    the local part alone finds no keyword and falls back to the first
    candidate. *)
Lemma C3_counterexample :
  pick_best ["zzz@info.co"; "boss@ceo.com"] ["ceo"; "info"] = Some "boss@ceo.com"
  /\ Spec.local_part "boss@ceo.com" = "boss"
  /\ contains "ceo" (lower (Spec.local_part "boss@ceo.com")) = false
  /\ Spec.pickBest ["zzz@info.co"; "boss@ceo.com"] ["ceo"; "info"]
     = Some "zzz@info.co"
  /\ pick_best ["zzz@info.co"; "boss@ceo.com"] ["ceo"; "info"]
     <> Spec.pickBest ["zzz@info.co"; "boss@ceo.com"] ["ceo"; "info"].
Proof. repeat split; try reflexivity. discriminate. Qed.

(** C3, amended.  [pick_best] goes through the keywords in their order
    and, for each, through the candidates in theirs; it answers the
    first candidate whose whole lower-cased address (local part or
    domain) contains the keyword.  So the answer [e] matches a keyword
    [k] that no candidate matches any earlier keyword, and no candidate
    before [e] matches [k]; when no keyword occurs in any candidate the
    answer is the first candidate, and there is no answer only for the
    empty list.  On the example, boss@ceo.com. *)
Theorem C3_keyword_priority_over_whole_address :
  (forall emails keywords : list string,
      match pick_best emails keywords with
      | Some e =>
          (exists ks1 k ks2 es1 es2,
              keywords = (ks1 ++ k :: ks2)%list
              /\ emails = (es1 ++ e :: es2)%list
              /\ (forall k' x, In k' ks1 -> In x emails -> ~ occurs k' (lower x))
              /\ (forall x, In x es1 -> ~ occurs k (lower x))
              /\ occurs k (lower e))
          \/ ((forall k x, In k keywords -> In x emails -> ~ occurs k (lower x))
              /\ exists rest, emails = e :: rest)
      | None => emails = []
      end)
  /\ pick_best ["zzz@info.co"; "boss@ceo.com"] ["ceo"; "info"]
     = Some "boss@ceo.com".
Proof.
  split; [|reflexivity].
  intros emails keywords. unfold pick_best.
  destruct (by_priority keywords emails) as [e|] eqn:B.
  - left. destruct (by_priority_some _ _ B) as (ks1 & k & ks2 & -> & Hn & F).
    destruct (first_with_some _ _ F) as (es1 & es2 & -> & Hb & Hy).
    exists ks1, k, ks2, es1, es2. repeat split.
    + intros k' x Hk Hx. apply contains_false. eauto.
    + intros x Hx. apply contains_false. eauto.
    + now apply contains_spec.
  - destruct emails as [|first rest]; [reflexivity|].
    right. split; [|eauto].
    intros k x Hk Hx. apply contains_false.
    eapply by_priority_none; eauto.
Qed.

(** C4 fails on the code: the bracket expression of the last part reads
    [[A-Z|a-z]] and so admits the bar.  In a bar-separated pair of
    addresses the first match runs over the bar into the next local
    part; the result does not follow the grammar, and the second address
    is lost. *)
Theorem C4_bar_in_top_level_part :
  findall "sales@acme.kr|support@acme.kr" = ["sales@acme.kr|support"]
  /\ ~ Spec.email_grammar "sales@acme.kr|support"
  /\ findall "a@b.c|d" = ["a@b.c|d"]
  /\ ~ Spec.email_grammar "a@b.c|d".
Proof.
  repeat split; try reflexivity;
    intros G; apply email_grammar_chars in G; vm_compute in G; discriminate.
Qed.

(** C5, as stated, fails: an address that occurs twice is listed twice. *)
Lemma C5_counterexample :
  findall "a@b.co a@b.co" = ["a@b.co"; "a@b.co"]
  /\ ~ NoDup (findall "a@b.co a@b.co").
Proof.
  split; [reflexivity|].
  change (findall "a@b.co a@b.co") with ["a@b.co"; "a@b.co"].
  intros H. inversion H as [|x l Hin _]; subst. apply Hin. now left.
Qed.

(** C6, as stated, fails: an address whose domain is not the portal's
    is removed because the portal's name occurs in its local part. *)
Lemma C6_counterexample :
  findall "ask naver.com@acme.kr" = ["naver.com@acme.kr"]
  /\ Spec.domain "naver.com@acme.kr" = "acme.kr"
  /\ Spec.domain_excluded "naver.com@acme.kr" = false
  /\ Spec.exclude (findall "ask naver.com@acme.kr") = ["naver.com@acme.kr"]
  /\ valid_emails (findall "ask naver.com@acme.kr") = [].
Proof. repeat split; reflexivity. Qed.

(** C6, amended.  The filter of the search stage keeps a candidate if and
    only if neither naver.com nor google.com occurs anywhere in its
    text, local part included, compared case-sensitively.  Every
    candidate whose domain ends in one of the two is thereby removed,
    and so are others. *)
Theorem C6_filter_by_occurrence (emails : list string) (e : string) :
  (In e (valid_emails emails) <->
   In e emails /\ ~ occurs "naver.com" e /\ ~ occurs "google.com" e)
  /\ (Spec.domain_excluded e = true -> ~ In e (valid_emails emails)).
Proof.
  assert (K : In e (valid_emails emails) <->
              In e emails /\ ~ occurs "naver.com" e /\ ~ occurs "google.com" e).
  { unfold valid_emails. rewrite filter_In, andb_true_iff, !negb_true_iff,
      !contains_false. tauto. }
  split; [exact K|].
  intros D H. apply K in H. apply domain_excluded_occurs in D. tauto.
Qed.

End Extractor.

(** ** The two resolver stages *)

Module Resolver.
Import Text Regex Browser Crawler Terms TextFacts RegexFacts CrawlerFacts.
Import Samples.

(** C7, as stated, fails: the only link of the listing points to the host
    acme.kr, which is neither the portal nor the search engine, yet it is
    passed over because its query string mentions the portal. *)
Lemma C7_counterexample :
  homepage_elements referred = Ok [link "https://acme.kr/?from=naver.com"]
  /\ Spec.host "https://acme.kr/?from=naver.com" = "acme.kr"
  /\ Spec.homepage ["https://acme.kr/?from=naver.com"]
     = Some "https://acme.kr/?from=naver.com"
  /\ search_naver_place (serve referred) "acme" fresh
     = (Ok no_data, after_search "acme" referred fresh).
Proof. repeat split; vm_compute; reflexivity. Qed.

(** C7, amended.  On a loaded listing whose telephone step and link
    attributes read without error, the homepage is the first link, in
    document order, whose address is a non-empty string in which neither
    naver.com nor google.com occurs anywhere (host, path or query); the
    links before it are all passed over, and when every link is passed
    over the homepage is none. *)
Theorem C7_homepage_is_first_accepted_link
  (web : Web) (name : string) (s : Session) (p : Page)
  (ph : option string) (hrefs : list (option string)) :
  web (search_url name) = Ok p ->
  phone_of p = Ok ph ->
  homepage_elements p = Ok (map link_of hrefs) ->
  exists nr s',
    search_naver_place web name s = (Ok nr, s')
    /\ ((exists pre h post,
            hrefs = (pre ++ Some h :: post)%list
            /\ Forall passed_over pre
            /\ h <> "" /\ ~ occurs "naver.com" h /\ ~ occurs "google.com" h
            /\ n_homepage nr = Some h)
        \/ (Forall passed_over hrefs /\ n_homepage nr = None)).
Proof.
  intros W P L.
  exists (extracted p), (after_search name p s).
  split; [now apply search_loaded|].
  unfold extracted, homepage_of. rewrite P, L.
  destruct (first_accepted_links hrefs)
    as [(pre & h & post & -> & Hp & Ha & Hf) | [Hp Hf]]; rewrite Hf.
  - left. exists pre, h, post. apply href_accepted_spec in Ha.
    destruct Ha as (N1 & N2 & N3).
    repeat split; auto. now destruct (email_of p).
  - right. split; auto. now destruct (email_of p).
Qed.

Lemma C7_witness :
  serve links_only (search_url "acme") = Ok links_only
  /\ phone_of links_only = Ok None
  /\ homepage_elements links_only
     = Ok (map link_of [Some "https://map.naver.com/p";
                        Some "https://acme.kr/?from=naver.com";
                        Some "http://acme.kr"])
  /\ exists nr s',
      search_naver_place (serve links_only) "acme" fresh = (Ok nr, s')
      /\ ((exists pre h post,
              [Some "https://map.naver.com/p";
               Some "https://acme.kr/?from=naver.com";
               Some "http://acme.kr"] = (pre ++ Some h :: post)%list
              /\ Forall passed_over pre
              /\ h <> "" /\ ~ occurs "naver.com" h /\ ~ occurs "google.com" h
              /\ n_homepage nr = Some h)
          \/ (Forall passed_over
                [Some "https://map.naver.com/p";
                 Some "https://acme.kr/?from=naver.com";
                 Some "http://acme.kr"]
              /\ n_homepage nr = None)).
Proof.
  split; [reflexivity|]. split; [reflexivity|]. split; [reflexivity|].
  exact (C7_homepage_is_first_accepted_link (serve links_only) "acme" fresh
           (p := links_only) (ph := None)
           [Some "https://map.naver.com/p";
            Some "https://acme.kr/?from=naver.com";
            Some "http://acme.kr"]
           eq_refl eq_refl eq_refl).
Defined.

(** C8, as stated, fails: the telephone lookup raises on a loaded page
    that carries a homepage link and an address, and the stage returns
    all three fields as none. *)
Lemma C8_counterexample :
  serve stale_phone (search_url "acme") = Ok stale_phone
  /\ phone_of stale_phone = Raised "stale element"
  /\ homepage_of stale_phone = Ok (Some "http://acme.kr")
  /\ email_of stale_phone = Ok (Some "sales@acme.kr")
  /\ exists nr s',
      search_naver_place (serve stale_phone) "acme" fresh = (Ok nr, s')
      /\ n_homepage nr = None /\ n_email nr = None.
Proof.
  repeat split; try reflexivity.
  exists no_data, (after_search "acme" stale_phone fresh).
  repeat split; reflexivity.
Qed.

(** C8, amended.  On a loaded page the three fields are extracted in the
    order phone, homepage, email inside one [try]; when a step raises,
    the stage still returns, the fields stored before that step keep
    their values, and the field of that step and of every later step are
    none.  A failing telephone lookup thus leaves all three none; a
    failing page-source read leaves phone and homepage in place. *)
Theorem C8_first_failure_ends_the_block
  (web : Web) (name : string) (s : Session) (p : Page) :
  web (search_url name) = Ok p ->
  exists nr s',
    search_naver_place web name s = (Ok nr, s')
    /\ (forall e, phone_of p = Raised e -> nr = no_data)
    /\ (forall ph e,
          phone_of p = Ok ph -> homepage_of p = Raised e ->
          nr = {| n_email := None; n_homepage := None; n_phone := ph |})
    /\ (forall ph hp e,
          phone_of p = Ok ph -> homepage_of p = Ok hp ->
          email_of p = Raised e ->
          nr = {| n_email := None; n_homepage := hp; n_phone := ph |})
    /\ (forall ph hp em,
          phone_of p = Ok ph -> homepage_of p = Ok hp ->
          email_of p = Ok em ->
          nr = {| n_email := em; n_homepage := hp; n_phone := ph |}).
Proof.
  intros W. exists (extracted p), (after_search name p s).
  split; [now apply search_loaded|].
  unfold extracted.
  repeat split.
  - intros e ->. reflexivity.
  - intros ph e -> ->. reflexivity.
  - intros ph hp e -> -> ->. reflexivity.
  - intros ph hp em -> -> ->. reflexivity.
Qed.

Lemma C8_witness :
  serve source_fails (search_url "acme") = Ok source_fails
  /\ exists nr s',
      search_naver_place (serve source_fails) "acme" fresh = (Ok nr, s')
      /\ (forall e, phone_of source_fails = Raised e -> nr = no_data)
      /\ (forall ph e,
            phone_of source_fails = Ok ph -> homepage_of source_fails = Raised e ->
            nr = {| n_email := None; n_homepage := None; n_phone := ph |})
      /\ (forall ph hp e,
            phone_of source_fails = Ok ph -> homepage_of source_fails = Ok hp ->
            email_of source_fails = Raised e ->
            nr = {| n_email := None; n_homepage := hp; n_phone := ph |})
      /\ (forall ph hp em,
            phone_of source_fails = Ok ph -> homepage_of source_fails = Ok hp ->
            email_of source_fails = Ok em ->
            nr = {| n_email := em; n_homepage := hp; n_phone := ph |}).
Proof.
  split; [reflexivity|].
  exact (C8_first_failure_ends_the_block (serve source_fails) "acme" fresh
           (p := source_fails) eq_refl).
Defined.

(** C9.  The website stage always returns to its caller, never raises,
    and answers none when the URL is [None] or empty, when the
    navigation to it fails, when the contact lookup or the click fails,
    when the source of the page it ends on (the target of the first
    contact link, else the homepage) cannot be read, and when that
    source yields no candidate. *)
Theorem C9_website_stage_never_raises
  (web : Web) (url : option string) (s : Session) :
  exists v s',
    extract_email_from_website web url s = (Ok v, s')
    /\ (truthy url = false -> v = None)
    /\ (forall u e, url = Some u -> web (normalized u) = Raised e -> v = None)
    /\ (forall u home e,
          url = Some u -> web (normalized u) = Ok home ->
          landing home = Raised e -> v = None)
    /\ (forall u home lp src,
          url = Some u -> web (normalized u) = Ok home ->
          landing home = Ok lp -> page_source lp = Ok src ->
          findall src = [] -> v = None)
    /\ (forall u home lp e,
          url = Some u -> web (normalized u) = Ok home ->
          landing home = Ok lp -> page_source lp = Raised e ->
          v = None).
Proof.
  destruct (truthy url) eqn:T.
  - apply truthy_spec in T. destruct T as (u & -> & N).
    destruct (web (normalized u)) as [home|e] eqn:W.
    + destruct (website_loaded _ s N W) as [s' H].
      exists (website_answer home), s'. split; [exact H|].
      repeat split.
      * discriminate.
      * intros u' e' [= <-] W'. congruence.
      * intros u' home' e' [= <-] W' L.
        assert (home' = home) as -> by congruence.
        unfold website_answer. now rewrite L.
      * intros u' home' lp src [= <-] W' L P F.
        assert (home' = home) as -> by congruence.
        unfold website_answer. now rewrite L, P, F.
      * intros u' home' lp e' [= <-] W' L P.
        assert (home' = home) as -> by congruence.
        unfold website_answer. now rewrite L, P.
    + destruct (website_unreachable _ _ s W) as [s' H].
      exists None, s'. repeat split; auto.
  - destruct (website_falsy web _ s T) as [s' H].
    exists None, s'. repeat split; auto.
Qed.

(** The website stage on sample inputs: no URL, an empty URL, a host
    that does not resolve, a homepage whose contact link carries the
    addresses, and a page without any. *)
Example website_stage_samples :
  fst (extract_email_from_website (serve listed) None fresh) = Ok None
  /\ fst (extract_email_from_website (serve listed) (Some "") fresh) = Ok None
  /\ fst (extract_email_from_website offline (Some "acme.kr") fresh) = Ok None
  /\ fst (extract_email_from_website (serve listed) (Some "acme.kr") fresh)
     = Ok (Some "info@acme.kr")
  /\ fst (extract_email_from_website (fun _ => Ok blank) (Some "acme.kr") fresh)
     = Ok None.
Proof. repeat split; vm_compute; reflexivity. Qed.

End Resolver.

(** ** Facts about whole runs *)

Module RunFacts.
Import Text Regex Browser Crawler Terms Spreadsheet Derived.
Import TextFacts RegexFacts CrawlerFacts.
Open Scope monad_scope.

(** The search stage, in one equation. *)
Lemma search_run (web : Web) (name : string) (s : Session) :
  search_naver_place web name s
  = (Ok (listing_of web name),
     after_search name (listing_page web name (current s)) s).
Proof.
  unfold listing_of, listing_page.
  destruct (web (search_url name)) as [p|e] eqn:W.
  - now apply search_loaded.
  - now apply search_failed with (e := e).
Qed.

(** The website stage, in one equation. *)
Lemma website_run (web : Web) (url : option string) (s : Session) :
  extract_email_from_website web url s
  = (Ok (website_of web url), after_website web url s).
Proof.
  unfold extract_email_from_website, driver_get, find_contact_links, click,
    driver_page_source, website_of, after_website, website_moves,
    website_page, website_answer, landing.
  run_monad. cbn [current events].
  destruct url as [u|]; run_monad; [|reflexivity].
  destruct (u =? ""); run_monad; [reflexivity|].
  fold (normalized u).
  destruct (web (normalized u)) as [home|e]; run_monad; cbn [current events].
  - destruct (contact_links home) as [[|first rest]|e]; run_monad;
      cbn [current events].
    + destruct (page_source home); rewrite <- List.app_assoc; reflexivity.
    + destruct first as [lp|e]; run_monad; cbn [current events].
      * destruct (page_source lp); rewrite <- !List.app_assoc; reflexivity.
      * rewrite <- !List.app_assoc. reflexivity.
    + rewrite <- List.app_assoc. reflexivity.
  - rewrite <- List.app_assoc. reflexivity.
Qed.

(** [find_email], in one equation. *)
Lemma find_email_run
  (web : Web) (name : string) (representative : option string) (s : Session) :
  find_email web name representative s
  = (Ok (answer web name), after_lookup web name s).
Proof.
  unfold find_email, bind. rewrite search_run.
  unfold answer, after_lookup, falls_back.
  destruct (truthy (n_email (listing_of web name))); cbn [negb andb].
  - reflexivity.
  - destruct (truthy (n_homepage (listing_of web name))); [|reflexivity].
    rewrite website_run.
    destruct (truthy (website_of web (n_homepage (listing_of web name))));
      reflexivity.
Qed.

End RunFacts.

(** ** What the pattern finds *)

Module Matches.
Import Text Regex Terms TextFacts RegexFacts.

Lemma local_class_not_at (c : ascii) :
  in_class local_class c = true -> Ascii.eqb c "@" = false.
Proof.
  destruct c as [[] [] [] [] [] [] [] []]; vm_compute; auto.
Qed.

Lemma split_at_first_at (loc rest : string) :
  Spec.all_chars (in_class local_class) loc = true ->
  Spec.local_part (loc ++ "@" ++ rest) = loc
  /\ Spec.domain (loc ++ "@" ++ rest) = rest.
Proof.
  induction loc as [|c loc IH]; intros A.
  - split; reflexivity.
  - cbn [Spec.all_chars] in A. apply andb_true_iff in A. destruct A as [Hc A].
    apply local_class_not_at in Hc. destruct (IH A) as [IH1 IH2].
    cbn [append Spec.local_part Spec.domain]. rewrite Hc.
    split; [now f_equal | exact IH2].
Qed.

(** X1.  Every string [findall] returns reads local part, [@], domain,
    dot, top-level part: one or more characters of [[A-Za-z0-9._%+-]],
    one or more of [[A-Za-z0-9.-]], and two or more of [[A-Z|a-z]]; the
    [@] is its only one, so the string splits there into local part and
    domain. *)
Theorem match_reads_local_at_domain (text e : string) :
  In e (findall text) ->
  exists loc dom tld,
    e = loc ++ "@" ++ dom ++ "." ++ tld
    /\ 1 <= String.length loc
    /\ Spec.all_chars (in_class local_class) loc = true
    /\ 1 <= String.length dom
    /\ Spec.all_chars (in_class domain_class) dom = true
    /\ 2 <= String.length tld
    /\ Spec.all_chars (in_class tld_class) tld = true
    /\ Spec.local_part e = loc
    /\ Spec.domain e = dom ++ "." ++ tld.
Proof.
  intros H.
  destruct (findall_form _ _ H)
    as (loc & dom & tld & -> & L1 & A1 & L2 & A2 & L3 & A3).
  exists loc, dom, tld.
  destruct (split_at_first_at loc (dom ++ "." ++ tld) A1) as [S1 S2].
  repeat split; auto.
Qed.

Lemma match_reads_local_at_domain_witness :
  In "sales@acme.kr" (findall "mail sales@acme.kr now")
  /\ exists loc dom tld,
      "sales@acme.kr" = loc ++ "@" ++ dom ++ "." ++ tld
      /\ 1 <= String.length loc
      /\ Spec.all_chars (in_class local_class) loc = true
      /\ 1 <= String.length dom
      /\ Spec.all_chars (in_class domain_class) dom = true
      /\ 2 <= String.length tld
      /\ Spec.all_chars (in_class tld_class) tld = true
      /\ Spec.local_part "sales@acme.kr" = loc
      /\ Spec.domain "sales@acme.kr" = dom ++ "." ++ tld.
Proof.
  assert (H : In "sales@acme.kr" (findall "mail sales@acme.kr now"))
    by (vm_compute; auto).
  split; [exact H|].
  exact (match_reads_local_at_domain "mail sales@acme.kr now" "sales@acme.kr" H).
Defined.

(** *** A plain address is found *)

Lemma letter_facts (c : ascii) :
  Spec.is_letter c = true ->
  in_class local_class c = true /\ in_class domain_class c = true
  /\ in_class tld_class c = true /\ is_word c = true
  /\ Ascii.eqb c "." = false.
Proof.
  destruct c as [[] [] [] [] [] [] [] []]; vm_compute; intros H;
    try discriminate H; auto.
Qed.

Lemma all_chars_drop (f : ascii -> bool) (t : string) :
  forall j, Spec.all_chars f t = true -> Spec.all_chars f (drop j t) = true.
Proof.
  induction t as [|c t IH]; intros [|j] A; try exact A.
  cbn [Spec.all_chars] in A. apply andb_true_iff in A.
  cbn [drop]. apply IH. tauto.
Qed.

Lemma span_app (cs : class) (a b : string) :
  Spec.all_chars (in_class cs) a = true ->
  span cs (a ++ b) = String.length a + span cs b.
Proof.
  induction a as [|c a IH]; intros A; [reflexivity|].
  cbn [Spec.all_chars] in A. apply andb_true_iff in A. destruct A as [Hc A].
  cbn [append span String.length]. rewrite Hc, (IH A). reflexivity.
Qed.

Lemma span_all (cs : class) (a : string) :
  Spec.all_chars (in_class cs) a = true -> span cs a = String.length a.
Proof.
  intros A. rewrite <- (app_empty_r a) at 1. rewrite (span_app _ _ _ A).
  simpl. lia.
Qed.

Lemma drop_app (a b : string) :
  forall j, drop (String.length a + j) (a ++ b) = drop j b.
Proof.
  induction a as [|c a IH]; intros j; [reflexivity|].
  cbn [String.length append Nat.add drop]. apply IH.
Qed.

Lemma drop_whole (a : string) : drop (String.length a) a = "".
Proof.
  induction a as [|c a IH]; [reflexivity|]. exact IH.
Qed.

Lemma take_whole (a : string) : take (String.length a) a = a.
Proof.
  induction a as [|c a IH]; [reflexivity|].
  cbn [String.length take]. now rewrite IH.
Qed.

Lemma get_all_chars (f : ascii -> bool) (t : string) :
  Spec.all_chars f t = true ->
  forall k, k < String.length t -> exists c, get k t = Some c /\ f c = true.
Proof.
  induction t as [|c t IH]; intros A k Hk; [simpl in Hk; lia|].
  cbn [Spec.all_chars] in A. apply andb_true_iff in A. destruct A as [Hc A].
  destruct k as [|k]; cbn [get].
  - eauto.
  - apply IH; [exact A | simpl in Hk; lia].
Qed.

Lemma char_before_all_chars (f : ascii -> bool) (t : string)
      (prev : option ascii) :
  Spec.all_chars f t = true ->
  forall k, 0 < k <= String.length t ->
            exists c, char_before prev t k = Some c /\ f c = true.
Proof.
  intros A [|k] Hk; [lia|]. cbn [char_before].
  apply get_all_chars; [exact A | lia].
Qed.

Lemma scan_skips_all (p : pattern) (s : string) :
  forall k prev, String.length s <= k -> scan p k prev s = [].
Proof.
  induction s as [|c s IH]; intros k prev H; [reflexivity|].
  destruct k as [|k]; [simpl in H; lia|].
  cbn [scan]. apply IH. simpl in H. lia.
Qed.

(** The repetition stops at the count [j] when the rest of the pattern
    matches there and at no larger count. *)
Lemma backtrack_hit rest prev s lo j m :
  lo <= j ->
  rest (char_before prev s j) (drop j s) = Some m ->
  forall k,
    j <= k ->
    (forall i, j < i <= k -> rest (char_before prev s i) (drop i s) = None) ->
    backtrack rest prev s lo k = Some (j + m).
Proof.
  intros Hlo Hj. induction k as [|k IH]; intros Hk Hnone.
  - assert (j = 0) as -> by lia. cbn [backtrack].
    replace (Nat.ltb 0 lo) with false by (symmetry; apply Nat.ltb_ge; lia).
    now rewrite Hj.
  - cbn [backtrack].
    replace (Nat.ltb (S k) lo) with false by (symmetry; apply Nat.ltb_ge; lia).
    destruct (Nat.eq_dec j (S k)) as [->|N].
    + now rewrite Hj.
    + rewrite (Hnone (S k)) by lia. apply IH; [lia|].
      intros i Hi. apply Hnone. lia.
Qed.

Lemma match_here_boundary (p : pattern) prev s :
  match_here (WordBoundary :: p) prev s
  = if at_boundary prev s then match_here p prev s else None.
Proof. reflexivity. Qed.

Lemma match_here_literal (c : ascii) (p : pattern) prev c' s :
  match_here (Literal c :: p) prev (String c' s)
  = if Ascii.eqb c' c then option_map S (match_here p (Some c') s) else None.
Proof. reflexivity. Qed.

Lemma match_here_repeat (cs : class) (lo : nat) (p : pattern) prev s :
  match_here (Repeat cs lo :: p) prev s
  = backtrack (match_here p) prev s lo (span cs s).
Proof. reflexivity. Qed.

Section Plain.
Variables loc dom tld : string.
Hypothesis loc_letters : Spec.all_chars Spec.is_letter loc = true.
Hypothesis dom_letters : Spec.all_chars Spec.is_letter dom = true.
Hypothesis tld_letters : Spec.all_chars Spec.is_letter tld = true.
Hypothesis loc_some : loc <> "".
Hypothesis dom_some : dom <> "".
Hypothesis tld_two : 2 <= String.length tld.

Lemma letters_in (cs : class) (t : string) :
  (forall c, Spec.is_letter c = true -> in_class cs c = true) ->
  Spec.all_chars Spec.is_letter t = true ->
  Spec.all_chars (in_class cs) t = true.
Proof. intros H. now apply all_chars_weaken. Qed.

Lemma tail_tld (prev : option ascii) :
  match_here [Repeat tld_class 2; WordBoundary] prev tld
  = Some (String.length tld).
Proof.
  cbn [match_here].
  assert (A : Spec.all_chars (in_class tld_class) tld = true)
    by (apply letters_in; [intros c H; apply letter_facts in H; tauto | assumption]).
  rewrite (span_all _ _ A).
  rewrite (backtrack_hit (match_here [WordBoundary]) prev tld
             (j := String.length tld) (m := 0)); auto.
  - destruct (char_before_all_chars _ tld prev tld_letters
                (k := String.length tld)) as (c & G & L); [lia|].
    rewrite G, drop_whole.
    apply letter_facts in L. destruct L as (_ & _ & _ & W & _).
    cbn [match_here]. unfold at_boundary, word_opt, head. rewrite W.
    reflexivity.
  - intros i Hi. lia.
Qed.

Lemma no_dot_in_tld (p : pattern) (prev : option ascii) (j : nat) :
  match_here (Literal "." :: p) prev (drop j tld) = None.
Proof.
  pose proof (all_chars_drop _ tld j tld_letters) as A.
  destruct (drop j tld) as [|c r]; [reflexivity|].
  cbn [Spec.all_chars] in A. apply andb_true_iff in A. destruct A as [Hc _].
  apply letter_facts in Hc. destruct Hc as (_ & _ & _ & _ & D).
  cbn [match_here]. now rewrite D.
Qed.

Lemma tail_domain (prev : option ascii) :
  match_here [Repeat domain_class 1; Literal "."; Repeat tld_class 2;
              WordBoundary] prev (dom ++ "." ++ tld)
  = Some (String.length dom + S (String.length tld)).
Proof.
  assert (Ad : Spec.all_chars (in_class domain_class) dom = true)
    by (apply letters_in; [intros c H; apply letter_facts in H; tauto | assumption]).
  assert (At : Spec.all_chars (in_class domain_class) ("." ++ tld) = true).
  { cbn [append Spec.all_chars]. apply andb_true_iff. split; [reflexivity|].
    apply letters_in; [intros c H; apply letter_facts in H; tauto | assumption]. }
  rewrite match_here_repeat.
  rewrite (span_app _ _ _ Ad), (span_all _ _ At).
  apply backtrack_hit.
  - destruct dom; [congruence | simpl; lia].
  - rewrite <- (Nat.add_0_r (String.length dom)), drop_app, drop_0.
    cbn [append]. rewrite match_here_literal, tail_tld. reflexivity.
  - lia.
  - intros i Hi.
    replace i with (String.length dom + S (i - String.length dom - 1)) by lia.
    rewrite drop_app. cbn [append drop]. apply no_dot_in_tld.
Qed.

Lemma whole_address :
  match_here email_pattern None (loc ++ "@" ++ dom ++ "." ++ tld)
  = Some (String.length (loc ++ "@" ++ dom ++ "." ++ tld)).
Proof.
  assert (Al : Spec.all_chars (in_class local_class) loc = true)
    by (apply letters_in; [intros c H; apply letter_facts in H; tauto | assumption]).
  unfold email_pattern. rewrite match_here_boundary, match_here_repeat.
  assert (B : at_boundary None (loc ++ "@" ++ dom ++ "." ++ tld) = true).
  { destruct loc as [|c l]; [congruence|].
    cbn [Spec.all_chars] in loc_letters.
    apply andb_true_iff in loc_letters. destruct loc_letters as [Hc _].
    apply letter_facts in Hc. destruct Hc as (_ & _ & _ & W & _).
    unfold at_boundary, word_opt. cbn [append head]. now rewrite W. }
  rewrite B, (span_app _ _ _ Al).
  replace (span local_class ("@" ++ dom ++ "." ++ tld)) with 0 by reflexivity.
  rewrite Nat.add_0_r.
  rewrite !length_app. cbn [String.length].
  apply backtrack_hit.
  - destruct loc; [congruence | simpl; lia].
  - rewrite <- (Nat.add_0_r (String.length loc)) at 2.
    rewrite drop_app, drop_0.
    cbn [append]. rewrite match_here_literal, tail_domain. reflexivity.
  - lia.
  - intros i Hi. lia.
Qed.

End Plain.

(** X2.  An address made of letters (a local part, a domain label and a
    top-level part of at least two letters) that is the whole text is
    found, whole and alone. *)
Theorem plain_address_is_found (loc dom tld : string) :
  Spec.all_chars Spec.is_letter loc = true ->
  Spec.all_chars Spec.is_letter dom = true ->
  Spec.all_chars Spec.is_letter tld = true ->
  loc <> "" -> dom <> "" -> 2 <= String.length tld ->
  findall (loc ++ "@" ++ dom ++ "." ++ tld)
  = [loc ++ "@" ++ dom ++ "." ++ tld].
Proof.
  intros Ll Ld Lt Nl Nd Nt.
  assert (H := ltac:(apply whole_address; assumption)
               : match_here email_pattern None (loc ++ "@" ++ dom ++ "." ++ tld)
                 = Some (String.length (loc ++ "@" ++ dom ++ "." ++ tld))).
  unfold findall.
  destruct (loc ++ "@" ++ dom ++ "." ++ tld) as [|c s] eqn:E.
  - destruct loc; [congruence | discriminate].
  - cbn [scan]. rewrite H. cbn [String.length].
    rewrite scan_skips_all by lia.
    change (take (S (String.length s)) (String c s))
      with (take (String.length (String c s)) (String c s)).
    now rewrite take_whole.
Qed.

Lemma plain_address_is_found_witness :
  Spec.all_chars Spec.is_letter "sales" = true
  /\ Spec.all_chars Spec.is_letter "acme" = true
  /\ Spec.all_chars Spec.is_letter "kr" = true
  /\ "sales" <> "" /\ "acme" <> "" /\ 2 <= String.length "kr"
  /\ findall ("sales" ++ "@" ++ "acme" ++ "." ++ "kr")
     = ["sales" ++ "@" ++ "acme" ++ "." ++ "kr"].
Proof.
  split; [reflexivity|]. split; [reflexivity|]. split; [reflexivity|].
  split; [discriminate|]. split; [discriminate|]. split; [apply le_n|].
  exact (@plain_address_is_found "sales" "acme" "kr" eq_refl eq_refl eq_refl
           ltac:(discriminate) ltac:(discriminate) (le_n 2)).
Defined.

End Matches.

(** ** The search stage, whatever the page does *)

Module SearchStage.
Import Text Regex Browser Crawler Terms Derived Samples.
Import TextFacts RegexFacts CrawlerFacts RunFacts.

Lemma navigations_app (a b : list Event) :
  navigations (a ++ b) = (navigations a ++ navigations b)%list.
Proof.
  induction a as [|[| | |] a IH]; simpl; auto. now rewrite IH.
Qed.

Lemma clicks_app (a b : list Event) : clicks (a ++ b) = clicks a + clicks b.
Proof.
  induction a as [|[| | |] a IH]; simpl; auto.
Qed.

(** The first element a filter keeps, and what it passed before it. *)
Lemma hd_filter {A : Type} (f : A -> bool) (l : list A) (x : A) :
  List.hd_error (filter f l) = Some x ->
  exists before after,
    l = (before ++ x :: after)%list
    /\ Forall (fun y => f y = false) before
    /\ f x = true.
Proof.
  induction l as [|y l IH]; simpl; [discriminate|].
  destruct (f y) eqn:E.
  - intros [= ->]. exists [], l. repeat split; auto.
  - intros H. destruct (IH H) as (b & a & -> & Hb & Hx).
    exists (y :: b), a. repeat split; auto.
Qed.

Lemma first_accepted_some (elems : list LinkElement) (h : string) :
  first_accepted elems = Ok (Some h) ->
  href_accepted (Some h) = true
  /\ exists elem, In elem elems /\ get_attribute_href elem = Ok (Some h).
Proof.
  induction elems as [|elem rest IH]; cbn [first_accepted]; [discriminate|].
  destruct (get_attribute_href elem) as [href|e] eqn:G; [|discriminate].
  destruct (href_accepted href) eqn:E.
  - intros [= ->]. split; [exact E|]. exists elem. split; [now left | exact G].
  - intros H. destruct (IH H) as (Ha & el & Hin & Hg).
    split; [exact Ha|]. exists el. split; [now right | exact Hg].
Qed.

(** X3.  The search stage never raises.  It navigates once, to the
    search address followed by the company name as it stands, and never
    clicks; when that navigation fails it answers all-none. *)
Theorem search_stage_never_raises (web : Web) (name : string) (s : Session) :
  exists nr s',
    search_naver_place web name s = (Ok nr, s')
    /\ navigations (events s')
       = (navigations (events s)
          ++ [("https://search.naver.com/search.naver?query=" ++ name)%string])%list
    /\ clicks (events s') = clicks (events s)
    /\ (forall e, web (search_url name) = Raised e -> nr = no_data).
Proof.
  eexists _, _. split; [apply search_run|].
  unfold after_search. cbn [events current].
  rewrite !navigations_app, !clicks_app.
  cbn [navigations clicks]. rewrite List.app_nil_r.
  split; [reflexivity|]. split; [lia|].
  intros e W. unfold listing_of. now rewrite W.
Qed.

(** X4.  When the search stage reports an email, the page source was
    read and the email is the first match in it that mentions neither
    naver.com nor google.com: every match before it mentions one of
    them. *)
Theorem search_email_is_first_survivor
  (web : Web) (name : string) (s s' : Session) (nr : NaverResult) (e : string) :
  search_naver_place web name s = (Ok nr, s') ->
  n_email nr = Some e ->
  exists src before after,
    page_source (current s') = Ok src
    /\ findall src = (before ++ e :: after)%list
    /\ Forall mentions_portal before
    /\ ~ mentions_portal e.
Proof.
  rewrite search_run. intros [= <- <-] E.
  unfold listing_of, listing_page, after_search in *. cbn [current].
  destruct (web (search_url name)) as [p|err]; [|discriminate].
  unfold extracted, email_of in E.
  destruct (phone_of p); [|discriminate].
  destruct (homepage_of p); [|discriminate].
  destruct (page_source p) as [src|err]; [|discriminate].
  cbn [n_email] in E. unfold valid_emails in E.
  destruct (hd_filter _ _ E) as (pre & post & F & Hb & He).
  exists src, pre, post. repeat split; auto.
  - eapply Forall_impl; [|exact Hb]. cbv beta. intros x Hx.
    apply andb_false_iff in Hx. unfold mentions_portal.
    rewrite !negb_false_iff, !contains_spec in Hx. exact Hx.
  - apply andb_true_iff in He. rewrite !negb_true_iff, !contains_false in He.
    unfold mentions_portal. tauto.
Qed.

Lemma search_email_is_first_survivor_witness :
  search_naver_place (serve listed) "acme" fresh
  = (Ok {| n_email := Some "sales@acme.kr";
           n_homepage := Some "http://acme.kr";
           n_phone := Some "02-123-4567" |},
     after_search "acme" listed fresh)
  /\ exists src before after,
      page_source (current (after_search "acme" listed fresh)) = Ok src
      /\ findall src = (before ++ "sales@acme.kr" :: after)%list
      /\ Forall mentions_portal before
      /\ ~ mentions_portal "sales@acme.kr".
Proof.
  assert (H : search_naver_place (serve listed) "acme" fresh
              = (Ok {| n_email := Some "sales@acme.kr";
                       n_homepage := Some "http://acme.kr";
                       n_phone := Some "02-123-4567" |},
                 after_search "acme" listed fresh)) by (vm_compute; reflexivity).
  split; [exact H|].
  exact (search_email_is_first_survivor (serve listed) "acme" fresh H eq_refl).
Defined.

(** X5.  A homepage reported by the search stage is the [href] of a link
    on the page shown, is not empty, and mentions neither naver.com nor
    google.com, also when other steps of the stage failed. *)
Theorem search_homepage_is_an_outside_link
  (web : Web) (name : string) (s s' : Session) (nr : NaverResult) (h : string) :
  search_naver_place web name s = (Ok nr, s') ->
  n_homepage nr = Some h ->
  h <> "" /\ ~ mentions_portal h
  /\ exists elems elem,
      homepage_elements (current s') = Ok elems
      /\ In elem elems
      /\ get_attribute_href elem = Ok (Some h).
Proof.
  rewrite search_run. intros [= <- <-] E.
  unfold listing_of, listing_page, after_search in *. cbn [current].
  destruct (web (search_url name)) as [p|err]; [|discriminate].
  unfold extracted, homepage_of in E.
  destruct (phone_of p); [|discriminate].
  destruct (homepage_elements p) as [elems|err]; [|discriminate].
  destruct (first_accepted elems) as [hp|err] eqn:F; [|discriminate].
  assert (hp = Some h) as -> by (destruct (email_of p); exact E).
  destruct (first_accepted_some _ F) as (Ha & elem & Hin & Hg).
  apply href_accepted_spec in Ha. destruct Ha as (N1 & N2 & N3).
  unfold mentions_portal. repeat split; auto; [tauto|].
  exists elems, elem. auto.
Qed.

Lemma search_homepage_is_an_outside_link_witness :
  search_naver_place (serve links_only) "acme" fresh
  = (Ok {| n_email := None;
           n_homepage := Some "http://acme.kr";
           n_phone := None |},
     after_search "acme" links_only fresh)
  /\ "http://acme.kr" <> "" /\ ~ mentions_portal "http://acme.kr"
  /\ exists elems elem,
      homepage_elements (current (after_search "acme" links_only fresh))
      = Ok elems
      /\ In elem elems
      /\ get_attribute_href elem = Ok (Some "http://acme.kr").
Proof.
  assert (H : search_naver_place (serve links_only) "acme" fresh
              = (Ok {| n_email := None;
                       n_homepage := Some "http://acme.kr";
                       n_phone := None |},
                 after_search "acme" links_only fresh))
    by (vm_compute; reflexivity).
  split; [exact H|].
  exact (search_homepage_is_an_outside_link (serve links_only) "acme" fresh
           H eq_refl).
Defined.

End SearchStage.

(** ** The website stage, move by move *)

Module WebsiteStage.
Import Text Regex Browser Crawler Terms Derived Samples.
Import TextFacts RegexFacts CrawlerFacts RunFacts SearchStage.

Lemma normalized_starts_with_http (u : string) :
  startswith "http" (normalized u) = true.
Proof.
  unfold normalized. destruct (startswith "http" u) eqn:E; [exact E|].
  reflexivity.
Qed.

Lemma pick_best_member (emails keywords : list string) (e : string) :
  pick_best emails keywords = Some e -> In e emails.
Proof.
  unfold pick_best. destruct (by_priority keywords emails) as [x|] eqn:B.
  - intros [= ->].
    destruct (by_priority_some _ _ B) as (ks1 & k & ks2 & _ & _ & F).
    destruct (first_with_some _ _ F) as (es1 & es2 & -> & _).
    apply in_or_app. right. now left.
  - destruct emails as [|x rest]; [discriminate|].
    intros [= ->]. now left.
Qed.

Lemma pick_best_prefers (emails keywords : list string) (e : string) :
  pick_best emails keywords = Some e ->
  (exists x k, In x emails /\ In k keywords /\ occurs k (lower x)) ->
  exists k, In k keywords /\ occurs k (lower e).
Proof.
  unfold pick_best. destruct (by_priority keywords emails) as [x|] eqn:B.
  - intros [= ->] _.
    destruct (by_priority_some _ _ B) as (ks1 & k & ks2 & -> & _ & F).
    destruct (first_with_some _ _ F) as (es1 & es2 & _ & _ & C).
    exists k. split; [apply in_or_app; right; now left|].
    now apply contains_spec.
  - intros _ (x & k & Hx & Hk & O).
    apply contains_spec in O.
    rewrite (by_priority_none _ _ B k x Hk Hx) in O. discriminate.
Qed.

(** X6.  The website stage never raises and makes at most one hop.
    Without a URL ([None] or empty) it does not touch the browser.
    Otherwise it navigates exactly once, to the URL itself when that
    begins with http and else to http:// followed by it, and clicks at
    most once. *)
Theorem website_stage_moves (web : Web) (url : option string) (s : Session) :
  exists v s',
    extract_email_from_website web url s = (Ok v, s')
    /\ (truthy url = false ->
        v = None /\ current s' = current s
        /\ navigations (events s') = navigations (events s)
        /\ clicks (events s') = clicks (events s))
    /\ (forall u,
          url = Some u -> u <> "" ->
          exists target,
            navigations (events s') = (navigations (events s) ++ [target])%list
            /\ (startswith "http" u = true -> target = u)
            /\ (startswith "http" u = false -> target = "http://" ++ u)
            /\ clicks (events s') <= clicks (events s) + 1).
Proof.
  eexists _, _. split; [apply website_run|].
  unfold after_website, website_of, website_moves, website_page.
  cbn [current events]. rewrite navigations_app, clicks_app.
  split.
  - intros T. destruct url as [u|].
    + simpl in T. apply negb_false_iff in T. rewrite T.
      cbn [navigations clicks]. rewrite List.app_nil_r.
      repeat split; try reflexivity; lia.
    + cbn [navigations clicks]. rewrite List.app_nil_r.
      repeat split; try reflexivity; lia.
  - intros u -> N. apply String.eqb_neq in N. rewrite N.
    exists (normalized u). cbn [navigations clicks].
    split; [|split; [|split]].
    + f_equal. destruct (web (normalized u)) as [home|e]; [|reflexivity].
      destruct (contact_links home) as [[|f r]|e]; reflexivity.
    + intros H. unfold normalized. now rewrite H.
    + intros H. unfold normalized. now rewrite H.
    + destruct (web (normalized u)) as [home|e]; [|simpl; lia].
      destruct (contact_links home) as [[|f r]|e]; simpl; lia.
Qed.

(** X7.  An email answered by the website stage is a match in the source
    of the page the session shows at the end (the target of the contact
    link, else the homepage), and is not empty; if any match on that
    page contains a priority keyword, so does the answer. *)
Theorem website_answer_is_a_candidate
  (web : Web) (url : option string) (s s' : Session) (e : string) :
  extract_email_from_website web url s = (Ok (Some e), s') ->
  exists src,
    page_source (current s') = Ok src
    /\ In e (findall src)
    /\ e <> ""
    /\ ((exists x, In x (findall src) /\ has_priority x) -> has_priority e).
Proof.
  rewrite website_run. intros [= E <-].
  unfold website_of, after_website, website_page in *. cbn [current].
  destruct url as [u|]; [|discriminate].
  destruct (u =? ""); [discriminate|].
  destruct (web (normalized u)) as [home|err]; [|discriminate].
  unfold website_answer, landing in E.
  assert (K : forall src,
             pick_best (findall src) priority_keywords = Some e ->
             In e (findall src) /\ e <> ""
             /\ ((exists x, In x (findall src) /\ has_priority x)
                 -> has_priority e)).
  { intros src B.
    pose proof (pick_best_member _ _ B) as M.
    repeat split; auto.
    - now apply findall_nonempty in M.
    - intros (x & Hx & k & Hk & O). unfold has_priority.
      eapply pick_best_prefers; eauto. }
  destruct (contact_links home) as [[|[lp|err] rest]|err]; try discriminate.
  - destruct (page_source home) as [src|err]; [|discriminate].
    exists src. split; [reflexivity | now apply K].
  - destruct (page_source lp) as [src|err]; [|discriminate].
    exists src. split; [reflexivity | now apply K].
Qed.

Lemma website_answer_is_a_candidate_witness :
  extract_email_from_website (serve listed) (Some "acme.kr") fresh
  = (Ok (Some "info@acme.kr"),
     after_website (serve listed) (Some "acme.kr") fresh)
  /\ exists src,
      page_source (current (after_website (serve listed) (Some "acme.kr") fresh))
      = Ok src
      /\ In "info@acme.kr" (findall src)
      /\ "info@acme.kr" <> ""
      /\ ((exists x, In x (findall src) /\ has_priority x)
          -> has_priority "info@acme.kr").
Proof.
  assert (H : extract_email_from_website (serve listed) (Some "acme.kr") fresh
              = (Ok (Some "info@acme.kr"),
                 after_website (serve listed) (Some "acme.kr") fresh))
    by (vm_compute; reflexivity).
  split; [exact H|].
  exact (website_answer_is_a_candidate (serve listed) (Some "acme.kr") fresh H).
Defined.

End WebsiteStage.

(** ** One lookup from outside *)

Module Lookup.
Import Text Regex Browser Crawler Terms Derived Samples.
Import TextFacts RegexFacts CrawlerFacts RunFacts SearchStage WebsiteStage.

(** X8.  In every result of [find_email] the email is present exactly
    when the source is, a present email is not the empty string, and the
    email is present exactly when the confidence is not [LOW]: a caller
    that tests the email has a source label to write. *)
Theorem found_email_has_a_source
  (web : Web) (name : string) (representative : option string) (s : Session) :
  exists r s',
    find_email web name representative s = (Ok r, s')
    /\ (email r = None <-> source r = None)
    /\ (forall e, email r = Some e -> e <> "")
    /\ (truthy (email r) = true <-> confidence r <> LOW).
Proof.
  eexists _, _. split; [apply find_email_run|].
  unfold answer.
  destruct (truthy (n_email (listing_of web name))) eqn:T1.
  - cbn [email source confidence]. rewrite T1.
    apply truthy_spec in T1. destruct T1 as (e & E & N). rewrite E.
    repeat split; try discriminate; try congruence.
  - destruct (falls_back (listing_of web name)
              && truthy (website_of web (n_homepage (listing_of web name))))
      eqn:T2.
    + apply andb_true_iff in T2. destruct T2 as [_ T2].
      cbn [email source confidence]. rewrite T2.
      apply truthy_spec in T2. destruct T2 as (e & E & N). rewrite E.
      repeat split; try discriminate; try congruence.
    + cbn. repeat split; try discriminate; try congruence.
Qed.

(** X9.  What [find_email] answers for a company depends on the remote
    content alone: neither the page the browser showed before, nor the
    events so far, nor the representative change the result, and the
    events added are the same. *)
Theorem lookup_ignores_the_session (web : Web) (name : string) :
  exists r added,
    forall (representative : option string) (s : Session),
    exists page,
      find_email web name representative s
      = (Ok r, {| current := page; events := (events s ++ added)%list |}).
Proof.
  exists (answer web name).
  exists ((Invoke_search_naver_place name :: Navigate (search_url name) :: nil)
          ++ (if falls_back (listing_of web name)
              then Invoke_extract_email_from_website
                     (n_homepage (listing_of web name))
                   :: website_moves web (n_homepage (listing_of web name))
              else []))%list.
  intros representative s. rewrite find_email_run.
  unfold after_lookup, after_website, after_search. cbn [current events].
  destruct (falls_back (listing_of web name)).
  - eexists. f_equal. f_equal. rewrite <- !List.app_assoc. reflexivity.
  - eexists. f_equal. f_equal. rewrite List.app_nil_r, <- List.app_assoc.
    reflexivity.
Qed.

(** X10.  One lookup navigates first to the search address and then at
    most once more, and clicks at most once.  The second navigation
    happens exactly when the website stage is invoked, which is the case
    whenever the source of the result is the website and never when it
    is the search stage; its target begins with http. *)
Theorem lookup_navigates_at_most_twice
  (web : Web) (name : string) (representative : option string) (s : Session) :
  exists r s' extra,
    find_email web name representative s = (Ok r, s')
    /\ navigations (events s')
       = (navigations (events s) ++ search_url name :: extra)%list
    /\ List.length extra = website_calls (events s') - website_calls (events s)
    /\ List.length extra <= 1
    /\ (forall u, In u extra -> startswith "http" u = true)
    /\ (source r = Some CompanyHomepage -> List.length extra = 1)
    /\ (source r = Some NaverPlace -> extra = [])
    /\ clicks (events s') <= clicks (events s) + 1.
Proof.
  exists (answer web name), (after_lookup web name s).
  exists (if falls_back (listing_of web name)
          then navigations (website_moves web (n_homepage (listing_of web name)))
          else []).
  split; [apply find_email_run|].
  unfold after_lookup, after_website, after_search, answer, falls_back.
  cbn [current events].
  destruct (truthy (n_email (listing_of web name))) eqn:T1; cbn [negb andb].
  - cbn [events source].
    rewrite !navigations_app, !website_calls_app, !clicks_app.
    cbn [navigations website_calls clicks List.length].
    rewrite <- List.app_assoc.
    repeat split; try reflexivity; try lia; try discriminate.
    intros u [].
  - destruct (truthy (n_homepage (listing_of web name))) eqn:T2.
    + apply truthy_spec in T2. destruct T2 as (h & E & N). rewrite E.
      apply String.eqb_neq in N.
      cbn [events]. unfold website_moves, website_of. rewrite N.
      rewrite !navigations_app, !website_calls_app, !clicks_app.
      cbn [navigations website_calls clicks List.length].
      assert (Z0 : navigations
                     match web (normalized h) with
                     | Ok home =>
                         match contact_links home with
                         | Ok (_ :: _) => [Click]
                         | _ => []
                         end
                     | Raised _ => []
                     end = []).
      { destruct (web (normalized h)) as [home|e]; [|reflexivity].
        destruct (contact_links home) as [[|f r]|e]; reflexivity. }
      assert (Z1 : website_calls
                     match web (normalized h) with
                     | Ok home =>
                         match contact_links home with
                         | Ok (_ :: _) => [Click]
                         | _ => []
                         end
                     | Raised _ => []
                     end = 0).
      { destruct (web (normalized h)) as [home|e]; [|reflexivity].
        destruct (contact_links home) as [[|f r]|e]; reflexivity. }
      assert (Z2 : clicks
                     match web (normalized h) with
                     | Ok home =>
                         match contact_links home with
                         | Ok (_ :: _) => [Click]
                         | _ => []
                         end
                     | Raised _ => []
                     end <= 1).
      { destruct (web (normalized h)) as [home|e]; [|simpl; lia].
        destruct (contact_links home) as [[|f r]|e]; simpl; lia. }
      rewrite Z0, Z1. cbn [List.length].
      split; [now rewrite <- !List.app_assoc|].
      split; [lia|]. split; [lia|].
      split; [intros u [<- | []]; apply normalized_starts_with_http|].
      split; [reflexivity|].
      split; [|lia].
      destruct (truthy match web (normalized h) with
                       | Ok home => website_answer home
                       | Raised _ => None
                       end); discriminate.
    + cbn [events source].
      rewrite !navigations_app, !website_calls_app, !clicks_app.
      cbn [navigations website_calls clicks List.length].
      rewrite <- List.app_assoc.
      repeat split; try reflexivity; try lia; try discriminate.
      intros u [].
Qed.

End Lookup.

(** ** The email column of the worksheet *)

Module Worksheet.
Import Text Browser Crawler Spreadsheet Derived SheetSamples.
Import CrawlerFacts.
Open Scope monad_scope.

Lemma member_spec (x : string) (l : list string) :
  member x l = true <-> In x l.
Proof.
  unfold member. rewrite existsb_exists. split.
  - intros (y & Hy & E). apply String.eqb_eq in E. now subst.
  - intros H. exists x. split; [exact H | apply String.eqb_refl].
Qed.

Lemma index_of_first (x : string) (pre post : list string) :
  ~ In x pre -> index_of x (pre ++ x :: post) = Some (List.length pre).
Proof.
  induction pre as [|y pre IH]; intros N; cbn [app index_of List.length].
  - now rewrite String.eqb_refl.
  - destruct (String.eqb_spec y x) as [->|D].
    + exfalso. apply N. now left.
    + rewrite IH; [reflexivity|]. intros H. apply N. now right.
Qed.

Lemma index_of_member (x : string) (l : list string) :
  In x l -> exists i, index_of x l = Some i.
Proof.
  induction l as [|y l IH]; [contradiction|].
  intros H. cbn [index_of]. destruct (String.eqb_spec y x) as [->|D]; [eauto|].
  destruct H as [-> | H]; [congruence|].
  destruct (IH H) as [i ->]. simpl. eauto.
Qed.

(** X11.  When the header row already has the email column,
    [add_email_column] returns the 1-based position of its first
    occurrence and calls [update_cell] not once. *)
Theorem existing_column_is_reused
  (sheet : Sheet) (d : Desk) (pre post : list string) :
  row_values_1 sheet = Ok (pre ++ EMAIL_HEADER :: post)%list ->
  ~ In EMAIL_HEADER pre ->
  add_email_column sheet d = (Ok (Some (Z.of_nat (List.length pre) + 1)%Z), d).
Proof.
  intros R N. unfold add_email_column. run_monad. rewrite R.
  replace (member EMAIL_HEADER (pre ++ EMAIL_HEADER :: post)) with true.
  - now rewrite (@index_of_first _ _ post N).
  - symmetry. apply member_spec, in_or_app. right. now left.
Qed.

Lemma existing_column_is_reused_witness :
  row_values_1 header_only = Ok (["No"; "Company"; "CEO"] ++ EMAIL_HEADER :: [])%list
  /\ ~ In EMAIL_HEADER ["No"; "Company"; "CEO"]
  /\ add_email_column header_only desk = (Ok (Some 4%Z), desk).
Proof.
  assert (N : ~ In EMAIL_HEADER ["No"; "Company"; "CEO"]).
  { intros [H | [H | [H | []]]]; discriminate H. }
  split; [reflexivity|]. split; [exact N|].
  exact (@existing_column_is_reused header_only desk
           ["No"; "Company"; "CEO"] [] eq_refl N).
Defined.

(** X12.  When the header row lacks the email column and the sheet takes
    every write, [add_email_column] writes the three headers in row 1,
    in the three columns after the last header, in the order email,
    source, confidence, and returns the first of these columns. *)
Theorem missing_column_is_appended
  (sheet : Sheet) (d : Desk) (headers : list string) :
  row_values_1 sheet = Ok headers ->
  ~ In EMAIL_HEADER headers ->
  writable sheet ->
  add_email_column sheet d
  = (Ok (Some (Z.of_nat (List.length headers) + 1)%Z),
     (fst d, (snd d ++ header_writes (List.length headers))%list)).
Proof.
  intros R N W. unfold add_email_column, update_cell. run_monad. rewrite R.
  replace (member EMAIL_HEADER headers) with false.
  - rewrite !W. cbn [fst snd]. unfold header_writes.
    rewrite <- !List.app_assoc, <- !Z.add_assoc. reflexivity.
  - symmetry. apply not_true_is_false. intros M. now apply member_spec in M.
Qed.

Lemma missing_column_is_appended_witness :
  row_values_1 ledger = Ok ["No"; "Company"; "CEO"]
  /\ ~ In EMAIL_HEADER ["No"; "Company"; "CEO"]
  /\ writable ledger
  /\ add_email_column ledger desk
     = (Ok (Some 4%Z), (fst desk, (snd desk ++ header_writes 3)%list)).
Proof.
  assert (N : ~ In EMAIL_HEADER ["No"; "Company"; "CEO"]).
  { intros [H | [H | [H | []]]]; discriminate H. }
  assert (W : writable ledger) by (intros b w; reflexivity).
  split; [reflexivity|]. split; [exact N|]. split; [exact W|].
  exact (@missing_column_is_appended ledger desk _ eq_refl N W).
Defined.

(** What [add_email_column] does, case by case. *)
Lemma add_email_column_run (sheet : Sheet) (d : Desk) :
  exists col k,
    add_email_column sheet d
    = (Ok col,
       (fst d,
        (snd d
         ++ match row_values_1 sheet with
            | Ok headers => firstn k (header_writes (List.length headers))
            | Raised _ => []
            end)%list))
    /\ (forall c, col = Some c -> (1 <= c)%Z)
    /\ match row_values_1 sheet with
       | Raised _ => col = None
       | Ok headers =>
           if member EMAIL_HEADER headers then k = 0
           else 1 <= k <= 3 /\ (k < 3 -> col = None)
       end.
Proof.
  unfold add_email_column, update_cell. run_monad.
  destruct (row_values_1 sheet) as [headers|e]; run_monad.
  - destruct (member EMAIL_HEADER headers) eqn:M.
    + apply member_spec in M. destruct (index_of_member _ _ M) as [i ->].
      exists (Some (Z.of_nat i + 1)%Z), 0. run_monad. cbn [firstn].
      rewrite List.app_nil_r. destruct d. cbn [fst snd].
      split; [reflexivity|]. split; [intros c [= <-]; lia | reflexivity].
    + unfold header_writes.
      destruct (update_cell_result sheet (snd d) _) as [[]|e1]; cbn [fst snd].
      * destruct (update_cell_result sheet _ _) as [[]|e2]; cbn [fst snd].
        -- destruct (update_cell_result sheet _ _) as [[]|e3]; cbn [fst snd].
           ++ exists (Some (Z.of_nat (List.length headers) + 1)%Z), 3.
              cbn [firstn]. rewrite <- !List.app_assoc, <- !Z.add_assoc.
              split; [reflexivity|].
              split; [intros c [= <-]; lia|]. split; lia.
           ++ exists None, 3.
              cbn [firstn]. rewrite <- !List.app_assoc, <- !Z.add_assoc.
              split; [reflexivity|].
              split; [discriminate|]. split; [lia | reflexivity].
        -- exists None, 2.
           cbn [firstn]. rewrite <- !List.app_assoc, <- !Z.add_assoc.
           split; [reflexivity|].
           split; [discriminate|]. split; [lia | reflexivity].
      * exists None, 1. cbn [firstn].
        split; [reflexivity|].
        split; [discriminate|]. split; [lia | reflexivity].
  - exists None, 0. rewrite List.app_nil_r. destruct d. cbn [fst snd].
    split; [reflexivity|]. split; [discriminate | reflexivity].
Qed.

(** The three header writes one by one: each is attempted only after
    the one before succeeded, and the first failure ends the setup
    with [None]. *)
Lemma add_email_column_absent (sheet : Sheet) (d : Desk)
      (headers : list string) (w1 w2 w3 : Write) :
  row_values_1 sheet = Ok headers ->
  ~ In EMAIL_HEADER headers ->
  header_writes (List.length headers) = [w1; w2; w3] ->
  add_email_column sheet d
  = match update_cell_result sheet (snd d) w1 with
    | Raised _ => (Ok None, (fst d, (snd d ++ [w1])%list))
    | Ok _ =>
        match update_cell_result sheet (snd d ++ [w1])%list w2 with
        | Raised _ => (Ok None, (fst d, (snd d ++ [w1; w2])%list))
        | Ok _ =>
            match update_cell_result sheet (snd d ++ [w1; w2])%list w3 with
            | Raised _ => (Ok None, (fst d, (snd d ++ [w1; w2; w3])%list))
            | Ok _ =>
                (Ok (Some (Z.of_nat (List.length headers) + 1)%Z),
                 (fst d, (snd d ++ [w1; w2; w3])%list))
            end
        end
    end.
Proof.
  intros R N [= <- <- <-].
  unfold add_email_column, update_cell. run_monad. rewrite R.
  replace (member EMAIL_HEADER headers) with false
    by (symmetry; apply not_true_is_false; intros M;
        now apply member_spec in M).
  rewrite <- !Z.add_assoc. cbn [Z.add Pos.add].
  destruct (update_cell_result sheet (snd d) _) as [[]|e1]; cbn [fst snd];
    [|reflexivity].
  destruct (update_cell_result sheet (snd d ++ [_]) _) as [[]|e2];
    cbn [fst snd]; rewrite <- ?List.app_assoc; cbn [app]; [|reflexivity].
  destruct (update_cell_result sheet (snd d ++ [_; _]) _) as [[]|e3];
    reflexivity.
Qed.

(** X13.  [add_email_column] never raises and leaves the browser alone;
    a column it returns is at least 1.  When the header row cannot be
    read it returns [None] and writes nothing.  When the header is
    missing, the three header writes are attempted in order, each only
    after the one before succeeded: the first write that fails ends the
    setup with [None], the header cells written before it stay, and
    only when all three succeed is the new column returned. *)
Theorem column_setup_never_raises (sheet : Sheet) (d : Desk) :
  exists col d',
    add_email_column sheet d = (Ok col, d')
    /\ fst d' = fst d
    /\ (forall c, col = Some c -> (1 <= c)%Z)
    /\ (forall e, row_values_1 sheet = Raised e -> col = None /\ d' = d)
    /\ (forall headers,
          row_values_1 sheet = Ok headers ->
          exists k,
            k <= 3
            /\ snd d'
               = (snd d ++ firstn k (header_writes (List.length headers)))%list
            /\ (In EMAIL_HEADER headers -> k = 0)
            /\ (~ In EMAIL_HEADER headers -> 1 <= k /\ (k < 3 -> col = None))
            /\ (~ In EMAIL_HEADER headers ->
                forall w1 w2 w3,
                  header_writes (List.length headers) = [w1; w2; w3] ->
                  (forall e,
                      update_cell_result sheet (snd d) w1 = Raised e ->
                      col = None /\ k = 1)
                  /\ (forall e,
                         update_cell_result sheet (snd d) w1 = Ok tt ->
                         update_cell_result sheet (snd d ++ [w1])%list w2
                         = Raised e ->
                         col = None /\ k = 2)
                  /\ (forall e,
                         update_cell_result sheet (snd d) w1 = Ok tt ->
                         update_cell_result sheet (snd d ++ [w1])%list w2
                         = Ok tt ->
                         update_cell_result sheet (snd d ++ [w1; w2])%list w3
                         = Raised e ->
                         col = None /\ k = 3)
                  /\ (update_cell_result sheet (snd d) w1 = Ok tt ->
                      update_cell_result sheet (snd d ++ [w1])%list w2
                      = Ok tt ->
                      update_cell_result sheet (snd d ++ [w1; w2])%list w3
                      = Ok tt ->
                      col = Some (Z.of_nat (List.length headers) + 1)%Z
                      /\ k = 3))).
Proof.
  destruct (add_email_column_run sheet d) as (col & k & H & C & K).
  eexists col, _. split; [exact H|]. cbn [fst snd].
  split; [reflexivity|]. split; [exact C|]. split.
  - intros e R. rewrite R in *. split; [exact K|].
    rewrite List.app_nil_r. now destruct d.
  - intros headers R. rewrite R in *. exists k.
    destruct (member EMAIL_HEADER headers) eqn:M.
    + subst k. split; [lia|]. split; [reflexivity|].
      split; [reflexivity|].
      assert (I : In EMAIL_HEADER headers) by now apply member_spec.
      split; intros N; exfalso; now apply N.
    + destruct K as [B Kn]. split; [lia|]. split; [reflexivity|].
      split; [intros I; apply member_spec in I; congruence|].
      split; [intros _; split; [lia | exact Kn]|].
      intros N w1 w2 w3 Hw.
      pose proof (add_email_column_absent sheet d R N Hw) as A.
      rewrite H in A. rewrite Hw in A.
      assert (U : forall (a b : list Write) j,
                 (a ++ firstn j [w1; w2; w3])%list = (a ++ b)%list ->
                 firstn j [w1; w2; w3] = b)
        by (intros a b j E; now apply List.app_inv_head in E).
      assert (F : forall j, j <= 3 ->
                 List.length (firstn j [w1; w2; w3]) = j)
        by (intros j Hj; rewrite List.length_firstn; simpl; lia).
      repeat split.
      * rewrite H0 in A. now injection A.
      * rewrite H0 in A. injection A as _ A. apply U in A.
        apply (f_equal (@List.length _)) in A. rewrite F in A by lia.
        exact A.
      * rewrite H0, H1 in A. now injection A.
      * rewrite H0, H1 in A. injection A as _ A. apply U in A.
        apply (f_equal (@List.length _)) in A. rewrite F in A by lia.
        exact A.
      * rewrite H0, H1, H2 in A. now injection A.
      * rewrite H0, H1, H2 in A. injection A as _ A. apply U in A.
        apply (f_equal (@List.length _)) in A. rewrite F in A by lia.
        exact A.
      * rewrite H0, H1, H2 in A. now injection A.
      * rewrite H0, H1, H2 in A. injection A as _ A. apply U in A.
        apply (f_equal (@List.length _)) in A. rewrite F in A by lia.
        exact A.
Qed.

End Worksheet.

(** ** The batch run over the rows *)

Module Batch.
Import Text Regex Browser Crawler Terms Spreadsheet Derived Samples SheetSamples.
Import TextFacts CrawlerFacts RunFacts Worksheet.
Open Scope monad_scope.

Lemma py_index_inside {A : Type} (l : list A) (i : Z) (dflt : A) :
  (0 <= i < Z.of_nat (List.length l))%Z ->
  py_index l i = Ok (nth (Z.to_nat i) l dflt).
Proof.
  intros H. unfold py_index.
  replace (i <? 0)%Z with false by (symmetry; apply Z.ltb_ge; lia).
  replace (0 <=? i)%Z with true by (symmetry; apply Z.leb_le; lia).
  replace (i <? Z.of_nat (List.length l))%Z with true
    by (symmetry; apply Z.ltb_lt; lia).
  cbn [andb].
  destruct (nth_error l (Z.to_nat i)) as [x|] eqn:E.
  - now rewrite (nth_error_nth _ _ dflt E).
  - apply nth_error_None in E. lia.
Qed.

Lemma py_index_beyond {A : Type} (l : list A) (i : Z) :
  (Z.of_nat (List.length l) <= i)%Z ->
  py_index l i = Raised "list index out of range".
Proof.
  intros H. unfold py_index.
  replace (i <? 0)%Z with false by (symmetry; apply Z.ltb_ge; lia).
  replace (i <? Z.of_nat (List.length l))%Z with false
    by (symmetry; apply Z.ltb_ge; lia).
  now rewrite andb_false_r.
Qed.

Lemma py_range_empty (a b : Z) : (b <= a)%Z -> py_range a b = [].
Proof.
  intros H. unfold py_range.
  replace (Z.to_nat (b - a)) with 0 by lia. reflexivity.
Qed.

Lemma py_range_first (a b : Z) :
  (a < b)%Z -> py_range a b = a :: py_range (a + 1) b.
Proof.
  intros H. unfold py_range.
  replace (Z.to_nat (b - a)) with (S (Z.to_nat (b - (a + 1)))) by lia.
  cbn [seq map]. f_equal; [lia|].
  rewrite <- seq_shift, map_map. apply map_ext. intros k. lia.
Qed.

Lemma py_range_bounds (a b : Z) (i : Z) :
  In i (py_range a b) -> (a <= i < b)%Z.
Proof.
  unfold py_range. rewrite in_map_iff. intros (k & <- & Hk).
  apply in_seq in Hk. lia.
Qed.

Lemma answer_has_source (web : Web) (name : string) :
  truthy (email (answer web name)) = true ->
  exists e src,
    email (answer web name) = Some e /\ source (answer web name) = Some src.
Proof.
  unfold answer.
  destruct (truthy (n_email (listing_of web name))) eqn:T1.
  - cbn [email source]. intros T. apply truthy_spec in T.
    destruct T as (e & E & _). eauto.
  - destruct (falls_back (listing_of web name)
              && truthy (website_of web (n_homepage (listing_of web name)))).
    + cbn [email source]. intros T. apply truthy_spec in T.
      destruct T as (e & E & _). eauto.
    + cbn. discriminate.
Qed.

Lemma row_writes_carry_text (web : Web) (col row_num : Z) (row : list string) :
  Forall (fun w => w_value w <> None) (row_writes web col row_num row).
Proof.
  unfold row_writes. destruct (cell row 1) as [name|]; [|constructor].
  destruct (name =? ""); [constructor|].
  destruct (truthy (email (answer web name))) eqn:T.
  - destruct (answer_has_source _ _ T) as (e & src & -> & ->).
    repeat constructor; discriminate.
  - repeat constructor; discriminate.
Qed.

(** The loop over rows that exist, on a sheet that takes every write. *)
Lemma crawl_rows_run (sheet : Sheet) (web : Web) (data : list (list string))
      (col : Z) :
  writable sheet ->
  forall idxs,
    (forall i, In i idxs -> (0 <= i < Z.of_nat (List.length data))%Z) ->
    forall count s cells,
    exists count',
      crawl_rows sheet web data col idxs count (s, cells)
      = (Ok count',
         (after_rows web (map (fun i => nth (Z.to_nat i) data []) idxs) s,
          (cells
           ++ flat_map (fun i => row_writes web col (i + 1)
                                   (nth (Z.to_nat i) data []))
                       idxs)%list)).
Proof.
  intros W. induction idxs as [|i idxs IH]; intros B count s cells.
  - exists count. cbn. now rewrite List.app_nil_r.
  - cbn [crawl_rows map flat_map after_rows]. run_monad.
    rewrite (py_index_inside data (i := i) []) by (apply B; now left).
    set (row := nth (Z.to_nat i) data []).
    assert (B' : forall j, In j idxs -> (0 <= j < Z.of_nat (List.length data))%Z)
      by (intros j Hj; apply B; now right).
    unfold row_writes.
    destruct (cell row 1) as [name|].
    + cbn [truthy]. destruct (name =? ""); cbn [negb].
      * destruct (IH B' count s cells) as [c' ->]. eauto.
      * rewrite find_email_run. cbn [fst snd].
        destruct (truthy (email (answer web name))).
        -- unfold update_cell. cbn [fst snd]. rewrite !W. run_monad.
           destruct (IH B' (count + 1)%Z (after_lookup web name s)
                       (((cells
                          ++ [{| w_row := (i + 1)%Z; w_col := col;
                                 w_value := email (answer web name) |}])
                         ++ [{| w_row := (i + 1)%Z; w_col := (col + 1)%Z;
                                w_value := option_map source_label
                                             (source (answer web name)) |}])
                        ++ [{| w_row := (i + 1)%Z; w_col := (col + 2)%Z;
                               w_value := Some (confidence_label
                                                  (confidence (answer web name))) |}])%list)
             as [c' ->].
           exists c'. rewrite <- !List.app_assoc. reflexivity.
        -- unfold update_cell. cbn [fst snd]. rewrite !W. run_monad.
           destruct (IH B' count (after_lookup web name s)
                       ((cells
                         ++ [{| w_row := (i + 1)%Z; w_col := col;
                                w_value := Some NOT_FOUND |}])
                        ++ [{| w_row := (i + 1)%Z; w_col := (col + 2)%Z;
                               w_value := Some "NONE" |}])%list)
             as [c' ->].
           exists c'. rewrite <- !List.app_assoc. reflexivity.
    + destruct (IH B' count s cells) as [c' ->]. eauto.
Qed.

Lemma column_is_positive (sheet : Sheet) (d d1 : Desk) (col : Z) :
  add_email_column sheet d = (Ok (Some col), d1) -> (col =? 0)%Z = false.
Proof.
  intros H. destruct (add_email_column_run sheet d) as (c & k & E & C & _).
  rewrite H in E. injection E as <- _.
  apply Z.eqb_neq. specialize (C col eq_refl). lia.
Qed.

(** X14.  When the header row cannot be read, the batch run returns
    normally and has done nothing: no row is read, no lookup is made,
    no cell is written. *)
Theorem unreadable_sheet_ends_the_run_quietly
  (sheet : Sheet) (web : Web) (start_row : Z) (end_row : option Z)
  (d : Desk) (e : string) :
  row_values_1 sheet = Raised e ->
  crawl_all_companies sheet web start_row end_row d = (Ok tt, d).
Proof.
  intros R. unfold crawl_all_companies, add_email_column. run_monad.
  rewrite R. now destruct d.
Qed.

Lemma unreadable_sheet_ends_the_run_quietly_witness :
  row_values_1 unreadable = Raised "APIError"
  /\ crawl_all_companies unreadable (serve listed) 2 None desk = (Ok tt, desk).
Proof.
  split; [reflexivity|].
  exact (@unreadable_sheet_ends_the_run_quietly unreadable (serve listed) 2 None
           desk "APIError" eq_refl).
Defined.

(** X15.  When the range of rows is empty with [total_count] zero, that
    is when the last row is the one before [start_row] (a sheet with
    its header row only, run from row 2), the batch run raises the
    division by zero of its closing log line, after the column setup
    and without any lookup. *)
Theorem empty_range_raises
  (sheet : Sheet) (web : Web) (start_row : Z) (end_row : option Z)
  (d d1 : Desk) (col : Z) (data : list (list string)) :
  add_email_column sheet d = (Ok (Some col), d1) ->
  get_all_values sheet = Ok data ->
  match end_row with
  | Some e => e
  | None => Z.of_nat (List.length data)
  end = (start_row - 1)%Z ->
  crawl_all_companies sheet web start_row end_row d
  = (Raised "division by zero", d1).
Proof.
  intros A G E. pose proof (column_is_positive _ _ A) as P.
  unfold crawl_all_companies, report. run_monad.
  rewrite A, P, G. run_monad. rewrite E.
  rewrite py_range_empty by lia. cbn [crawl_rows]. run_monad.
  replace (start_row - 1 - start_row + 1 =? 0)%Z with true
    by (symmetry; apply Z.eqb_eq; lia).
  now destruct d1.
Qed.

Lemma empty_range_raises_witness :
  add_email_column header_only desk = (Ok (Some 4%Z), desk)
  /\ get_all_values header_only = Ok [["No"; "Company"; "CEO"; EMAIL_HEADER]]
  /\ Z.of_nat (List.length [["No"; "Company"; "CEO"; EMAIL_HEADER]]) = (2 - 1)%Z
  /\ crawl_all_companies header_only (serve listed) 2 None desk
     = (Raised "division by zero", desk).
Proof.
  assert (A : add_email_column header_only desk = (Ok (Some 4%Z), desk))
    by (vm_compute; reflexivity).
  split; [exact A|]. split; [reflexivity|]. split; [reflexivity|].
  exact (@empty_range_raises header_only (serve listed) 2 None desk desk 4
           [["No"; "Company"; "CEO"; EMAIL_HEADER]] A eq_refl eq_refl).
Defined.

(** X16.  When [start_row] lies beyond the rows of the sheet and an
    explicit [end_row] is not before it, the batch run raises the
    IndexError of its first row access, after the column setup and
    without any lookup. *)
Theorem row_beyond_the_data_raises
  (sheet : Sheet) (web : Web) (start_row last : Z)
  (d d1 : Desk) (col : Z) (data : list (list string)) :
  add_email_column sheet d = (Ok (Some col), d1) ->
  get_all_values sheet = Ok data ->
  (Z.of_nat (List.length data) < start_row)%Z ->
  (start_row <= last)%Z ->
  crawl_all_companies sheet web start_row (Some last) d
  = (Raised "list index out of range", d1).
Proof.
  intros A G B L. pose proof (column_is_positive _ _ A) as P.
  unfold crawl_all_companies. run_monad.
  rewrite A, P, G. run_monad.
  rewrite py_range_first by lia. cbn [crawl_rows]. run_monad.
  rewrite py_index_beyond by lia. now destruct d1.
Qed.

Lemma row_beyond_the_data_raises_witness :
  add_email_column ledger desk = (Ok (Some 4%Z), (fresh, header_writes 3))
  /\ get_all_values ledger = Ok [["No"; "Company"; "CEO"];
                                 ["1"; "acme"; "Kim"];
                                 ["2"; ""; "Lee"];
                                 ["3"]]
  /\ (Z.of_nat (List.length [["No"; "Company"; "CEO"];
                             ["1"; "acme"; "Kim"];
                             ["2"; ""; "Lee"];
                             ["3"]]) < 5)%Z
  /\ (5 <= 6)%Z
  /\ crawl_all_companies ledger (serve listed) 5 (Some 6%Z) desk
     = (Raised "list index out of range", (fresh, header_writes 3)).
Proof.
  assert (A : add_email_column ledger desk
              = (Ok (Some 4%Z), (fresh, header_writes 3)))
    by (vm_compute; reflexivity).
  split; [exact A|]. split; [reflexivity|].
  split; [reflexivity|]. split; [discriminate|].
  exact (@row_beyond_the_data_raises ledger (serve listed) 5 6 desk
           (fresh, header_writes 3) 4 _ A eq_refl eq_refl
           ltac:(discriminate)).
Defined.

(** X17.  On a sheet that takes every write, for rows [start_row] to the
    last row that all exist, the batch run returns normally and calls
    [update_cell], row after row in sheet order: for a row without
    company name nothing (and no lookup); for a company with an email
    the email, the source label and the confidence in the three columns
    from the email column on; for a company without, the not-found
    marker in the email column and NONE in the confidence column, the
    source column left alone.  Every call carries a text. *)
Theorem batch_writes_row_by_row
  (sheet : Sheet) (web : Web) (start_row : Z) (end_row : option Z)
  (d d1 : Desk) (col last : Z) (data : list (list string)) :
  writable sheet ->
  add_email_column sheet d = (Ok (Some col), d1) ->
  get_all_values sheet = Ok data ->
  last = match end_row with
         | Some e => e
         | None => Z.of_nat (List.length data)
         end ->
  (1 <= start_row <= last)%Z ->
  (last <= Z.of_nat (List.length data))%Z ->
  crawl_all_companies sheet web start_row end_row d
  = (Ok tt,
     (after_rows web
        (map (fun i => nth (Z.to_nat i) data []) (py_range (start_row - 1) last))
        (fst d1),
      (snd d1
       ++ flat_map (fun i => row_writes web col (i + 1)
                               (nth (Z.to_nat i) data []))
                   (py_range (start_row - 1) last))%list))
  /\ Forall (fun w => w_value w <> None)
            (flat_map (fun i => row_writes web col (i + 1)
                                  (nth (Z.to_nat i) data []))
                      (py_range (start_row - 1) last)).
Proof.
  intros W A G E B L. pose proof (column_is_positive _ _ A) as P. split.
  - unfold crawl_all_companies, report. run_monad.
    rewrite A, P, G. run_monad. rewrite <- E.
    assert (I : forall i, In i (py_range (start_row - 1) last) ->
                          (0 <= i < Z.of_nat (List.length data))%Z).
    { intros i Hi. apply py_range_bounds in Hi. lia. }
    destruct (@crawl_rows_run sheet web data col W _ I 0%Z (fst d1) (snd d1))
      as [c' H].
    destruct d1 as [s1 cells1]. cbn [fst snd] in *. rewrite H.
    replace (last - start_row + 1 =? 0)%Z with false
      by (symmetry; apply Z.eqb_neq; lia).
    reflexivity.
  - apply Forall_flat_map, Forall_forall. intros i _.
    apply row_writes_carry_text.
Qed.

Lemma batch_writes_row_by_row_witness :
  writable ledger
  /\ add_email_column ledger desk = (Ok (Some 4%Z), (fresh, header_writes 3))
  /\ crawl_all_companies ledger (serve links_only) 2 None desk
     = (Ok tt,
        (after_lookup (serve links_only) "acme" fresh,
         (header_writes 3
          ++ [ {| w_row := 2; w_col := 4; w_value := Some "info@acme.kr" |};
               {| w_row := 2; w_col := 5;
                  w_value := Some (source_label CompanyHomepage) |};
               {| w_row := 2; w_col := 6; w_value := Some "MEDIUM" |} ])%list)).
Proof.
  assert (W : writable ledger) by (intros b w; reflexivity).
  assert (A : add_email_column ledger desk
              = (Ok (Some 4%Z), (fresh, header_writes 3)))
    by (vm_compute; reflexivity).
  split; [exact W|]. split; [exact A|].
  destruct (@batch_writes_row_by_row ledger (serve links_only) 2 None desk
              (fresh, header_writes 3) 4 4 _ W A eq_refl eq_refl
              ltac:(lia) ltac:(cbn; lia)) as [H _].
  rewrite H. vm_compute. reflexivity.
Defined.

End Batch.


(** ** Every occurrence is listed *)

Module Listing.
Import Text Regex Crawler Terms Occurrence.
Import TextFacts RegexFacts Matches.

Lemma last_of_app (a b : string) :
  forall prev, last_of prev (a ++ b) = last_of (last_of prev a) b.
Proof.
  induction a as [|c a IH]; intros prev; [reflexivity|]. apply IH.
Qed.

Lemma take_app_length (m rest : string) :
  take (String.length m) (m ++ rest) = m.
Proof.
  induction m as [|c m IH]; [now destruct rest|].
  cbn [String.length append take]. now rewrite IH.
Qed.

Lemma drop_app_length (m rest : string) :
  drop (String.length m) (m ++ rest) = rest.
Proof.
  induction m as [|c m IH]; [apply drop_0|]. exact IH.
Qed.

(** Passing over the characters of a match. *)
Lemma scan_skip (p : pattern) (a rest : string) :
  forall prev,
    scan p (String.length a) prev (a ++ rest) = scan p 0 (last_of prev a) rest.
Proof.
  induction a as [|c a IH]; intros prev; [reflexivity|].
  cbn [String.length append scan last_of]. apply IH.
Qed.

Lemma no_empty_match (prev : option ascii) (s : string) :
  match_here email_pattern prev s <> Some 0.
Proof.
  intros H. apply match_here_shape in H. destruct H as [_ H].
  replace (take 0 s) with "" in H by (now destruct s).
  cbn [shape email_pattern] in H.
  destruct H as (loc & m1 & E & L & _).
  destruct loc; [simpl in L; lia | discriminate].
Qed.

Lemma quiet_empty (p : pattern) (prev : option ascii) (tail : string) :
  quiet p prev "" tail.
Proof.
  intros a b E N. destruct a; [|discriminate]. simpl in E. congruence.
Qed.

Lemma quiet_step (p : pattern) (prev : option ascii) (c : ascii)
      (gap tail : string) :
  match_here p prev (String c (gap ++ tail)) = None ->
  quiet p (Some c) gap tail ->
  quiet p prev (String c gap) tail.
Proof.
  intros H Q a b E N. destruct a as [|x a].
  - simpl in E. subst b. exact H.
  - injection E as <- E. cbn [last_of]. now apply Q.
Qed.

Lemma quiet_tail (p : pattern) (prev : option ascii) (c : ascii)
      (gap tail : string) :
  quiet p prev (String c gap) tail ->
  match_here p prev (String c (gap ++ tail)) = None
  /\ quiet p (Some c) gap tail.
Proof.
  intros Q. split.
  - apply (Q "" (String c gap)); [reflexivity | discriminate].
  - intros a b E N. apply (Q (String c a) b); [now rewrite E | exact N].
Qed.

Lemma occurrences_step (p : pattern) (prev : option ascii) (c : ascii)
      (s : string) (ms : list string) :
  match_here p prev (String c s) = None ->
  occurrences p (Some c) s ms ->
  occurrences p prev (String c s) ms.
Proof.
  intros H O. inversion O as [pv text Q | pv gap m rest ms' Q N M O']; subst.
  - constructor. apply quiet_step; [|exact Q]. now rewrite app_empty_r.
  - change (String c (gap ++ m ++ rest)) with (String c gap ++ m ++ rest).
    constructor; auto. now apply quiet_step.
Qed.

(** The scan lists the occurrences. *)
Lemma scan_occurrences (p : pattern) :
  (forall prev s, match_here p prev s <> Some 0) ->
  forall n s prev,
    String.length s <= n -> occurrences p prev s (scan p 0 prev s).
Proof.
  intros H0. induction n as [|n IH]; intros s prev L.
  - destruct s; [|simpl in L; lia]. constructor. apply quiet_empty.
  - destruct s as [|c s]; [constructor; apply quiet_empty|].
    cbn [scan].
    destruct (match_here p prev (String c s)) as [[|k]|] eqn:E.
    + now apply H0 in E.
    + pose proof (match_here_shape _ _ _ E) as [B _].
      cbn [String.length] in B, L.
      assert (Lk : String.length (take k s) = k)
        by (apply take_length; lia).
      assert (S1 : scan p k (Some c) s
                   = scan p 0 (last_of (Some c) (take k s)) (drop k s)).
      { rewrite <- (take_drop k s) at 1. rewrite <- Lk at 1.
        apply scan_skip. }
      rewrite S1.
      assert (T : String c s = "" ++ String c (take k s) ++ drop k s)
        by (cbn [append]; now rewrite take_drop).
      cbn [take]. rewrite T at 1.
      constructor.
      * apply quiet_empty.
      * discriminate.
      * cbn [last_of append String.length]. rewrite take_drop, Lk. exact E.
      * cbn [append last_of]. apply IH. rewrite drop_length. lia.
    + apply occurrences_step; [exact E|]. apply IH. simpl in L. lia.
Qed.

Lemma scan_quiet (p : pattern) (gap tail : string) :
  forall prev,
    quiet p prev gap tail ->
    scan p 0 prev (gap ++ tail) = scan p 0 (last_of prev gap) tail.
Proof.
  induction gap as [|c gap IH]; intros prev Q; [reflexivity|].
  apply quiet_tail in Q. destruct Q as [H Q].
  cbn [append scan last_of]. rewrite H. now apply IH.
Qed.

(** The occurrences are what the scan lists. *)
Lemma occurrences_scan (p : pattern) (prev : option ascii) (s : string)
      (ms : list string) :
  occurrences p prev s ms -> ms = scan p 0 prev s.
Proof.
  induction 1 as [prev text Q | prev gap m rest ms Q N M O IH].
  - rewrite <- (app_empty_r text). rewrite (scan_quiet Q).
    reflexivity.
  - rewrite (scan_quiet Q).
    destruct m as [|c m]; [congruence|].
    cbn [append scan String.length] in *. rewrite M.
    cbn [take]. rewrite take_app_length, scan_skip. f_equal.
    rewrite IH. now rewrite last_of_app.
Qed.

(** *** An address, a space, and any text *)

Lemma backtrack_prev rest (prev1 prev2 : option ascii) (s : string) (lo : nat) :
  (forall t, rest prev1 t = rest prev2 t) ->
  forall k, backtrack rest prev1 s lo k = backtrack rest prev2 s lo k.
Proof.
  intros H. induction k as [|k IH]; cbn [backtrack char_before].
  - now rewrite H.
  - now rewrite IH.
Qed.

(** The character before a position matters to a match only through its
    being a word character or not. *)
Lemma match_here_prev (p : pattern) :
  forall prev1 prev2 s,
    word_opt prev1 = word_opt prev2 ->
    match_here p prev1 s = match_here p prev2 s.
Proof.
  induction p as [|a p IH]; intros prev1 prev2 s W; [reflexivity|].
  destruct a as [|c|cs lo].
  - rewrite !match_here_boundary. unfold at_boundary. rewrite W.
    now rewrite (IH _ _ s W).
  - destruct s; reflexivity.
  - rewrite !match_here_repeat. apply backtrack_prev.
    intros t. now apply IH.
Qed.

Lemma scan_prev (p : pattern) (prev1 prev2 : option ascii) (s : string) :
  word_opt prev1 = word_opt prev2 -> scan p 0 prev1 s = scan p 0 prev2 s.
Proof.
  intros W. destruct s as [|c s]; [reflexivity|].
  cbn [scan]. now rewrite (match_here_prev _ _ _ (String c s) W).
Qed.

(** No match starts at a space. *)
Lemma space_no_match (prev : option ascii) (t : string) :
  match_here email_pattern prev (String " " t) = None.
Proof.
  unfold email_pattern. rewrite match_here_boundary, match_here_repeat.
  destruct (at_boundary prev (String " " t)); reflexivity.
Qed.

Lemma head_drop (g : ascii -> bool) (a t : string) :
  Spec.all_chars g a = true ->
  forall j, j < String.length a ->
            exists c r, drop j (a ++ t) = String c r /\ g c = true.
Proof.
  induction a as [|x a IH]; intros A j L; [simpl in L; lia|].
  cbn [Spec.all_chars] in A. apply andb_true_iff in A. destruct A as [Hx A].
  destruct j as [|j]; cbn [append drop].
  - eauto.
  - apply IH; [exact A | simpl in L; lia].
Qed.

Lemma get_app_left (a b : string) :
  forall k, k < String.length a -> get k (a ++ b) = get k a.
Proof.
  induction a as [|c a IH]; intros k L; [simpl in L; lia|].
  destruct k as [|k]; [reflexivity|].
  cbn [append get]. apply IH. simpl in L. lia.
Qed.

Section Followed.
Variables loc dom tld t : string.
Hypothesis loc_letters : Spec.all_chars Spec.is_letter loc = true.
Hypothesis dom_letters : Spec.all_chars Spec.is_letter dom = true.
Hypothesis tld_letters : Spec.all_chars Spec.is_letter tld = true.
Hypothesis loc_some : loc <> "".
Hypothesis dom_some : dom <> "".
Hypothesis tld_two : 2 <= String.length tld.

Lemma tld_then_space (prev : option ascii) :
  match_here [Repeat tld_class 2; WordBoundary] prev (tld ++ String " " t)
  = Some (String.length tld).
Proof.
  assert (A : Spec.all_chars (in_class tld_class) tld = true)
    by (apply (all_chars_weaken Spec.is_letter); [|assumption];
        intros c H; apply letter_facts in H; tauto).
  rewrite match_here_repeat, (span_app _ _ _ A).
  replace (span tld_class (String " " t)) with 0 by reflexivity.
  rewrite Nat.add_0_r.
  rewrite <- (Nat.add_0_r (String.length tld)) at 2.
  apply backtrack_hit; [assumption| |lia|intros i Hi; lia].
  rewrite drop_app_length.
  destruct (String.length tld) as [|n] eqn:E; [lia|].
  cbn [char_before]. rewrite get_app_left by lia.
  destruct (get_all_chars _ _ tld_letters (k := n)) as (c & G & Lc); [lia|].
  rewrite G. apply letter_facts in Lc. destruct Lc as (_ & _ & _ & W & _).
  rewrite match_here_boundary. unfold at_boundary, word_opt, head.
  rewrite W. reflexivity.
Qed.

Lemma no_dot_before_space (p : pattern) (prev : option ascii) (j : nat) :
  j <= String.length tld ->
  match_here (Literal "." :: p) prev (drop j (tld ++ String " " t)) = None.
Proof.
  intros L.
  set (g := fun c => Spec.is_letter c || Ascii.eqb c " ").
  assert (A : Spec.all_chars g (tld ++ " ") = true).
  { rewrite all_chars_app. apply andb_true_iff. split; [|reflexivity].
    apply (all_chars_weaken Spec.is_letter); [|assumption].
    intros c H. unfold g. now rewrite H. }
  destruct (head_drop g (tld ++ " ") t A (j := j)) as (c & r & D & G).
  { rewrite length_app. simpl. lia. }
  rewrite app_assoc in D. cbn [append] in D. rewrite D.
  rewrite match_here_literal.
  replace (Ascii.eqb c ".") with false; [reflexivity|].
  unfold g in G. apply orb_true_iff in G. destruct G as [G | G].
  - apply letter_facts in G. symmetry. tauto.
  - apply Ascii.eqb_eq in G. now subst c.
Qed.

Lemma domain_then_space (prev : option ascii) :
  match_here [Repeat domain_class 1; Literal "."; Repeat tld_class 2;
              WordBoundary] prev (dom ++ String "." (tld ++ String " " t))
  = Some (String.length dom + S (String.length tld)).
Proof.
  assert (Ad : Spec.all_chars (in_class domain_class) dom = true)
    by (apply (all_chars_weaken Spec.is_letter); [|assumption];
        intros c H; apply letter_facts in H; tauto).
  assert (At : Spec.all_chars (in_class domain_class) tld = true)
    by (apply (all_chars_weaken Spec.is_letter); [|assumption];
        intros c H; apply letter_facts in H; tauto).
  rewrite match_here_repeat, (span_app _ _ _ Ad).
  replace (span domain_class (String "." (tld ++ String " " t)))
    with (S (String.length tld)).
  2:{ cbn [span]. replace (in_class domain_class ".") with true by reflexivity.
      rewrite (span_app _ _ _ At).
      replace (span domain_class (String " " t)) with 0 by reflexivity.
      lia. }
  apply backtrack_hit.
  - destruct dom; [congruence | simpl; lia].
  - rewrite drop_app_length, match_here_literal.
    replace (Ascii.eqb "." ".") with true by reflexivity.
    now rewrite tld_then_space.
  - lia.
  - intros i Hi.
    replace i with (String.length dom + S (i - String.length dom - 1)) by lia.
    rewrite drop_app. cbn [drop]. apply no_dot_before_space. lia.
Qed.

Lemma address_then_space (prev : option ascii) :
  word_opt prev = false ->
  match_here email_pattern prev
             (loc ++ String "@" (dom ++ String "." (tld ++ String " " t)))
  = Some (String.length loc + S (String.length dom + S (String.length tld))).
Proof.
  intros Wp.
  assert (Al : Spec.all_chars (in_class local_class) loc = true)
    by (apply (all_chars_weaken Spec.is_letter); [|assumption];
        intros c H; apply letter_facts in H; tauto).
  unfold email_pattern. rewrite match_here_boundary, match_here_repeat.
  replace (at_boundary prev
             (loc ++ String "@" (dom ++ String "." (tld ++ String " " t))))
    with true.
  2:{ destruct loc as [|c l]; [congruence|].
      cbn [Spec.all_chars] in loc_letters.
      apply andb_true_iff in loc_letters. destruct loc_letters as [Hc _].
      apply letter_facts in Hc. destruct Hc as (_ & _ & _ & W & _).
      unfold at_boundary. cbn [append head word_opt]. now rewrite Wp, W. }
  rewrite (span_app _ _ _ Al).
  replace (span local_class
             (String "@" (dom ++ String "." (tld ++ String " " t))))
    with 0 by reflexivity.
  rewrite Nat.add_0_r.
  apply backtrack_hit.
  - destruct loc; [congruence | simpl; lia].
  - rewrite drop_app_length, match_here_literal.
    replace (Ascii.eqb "@" "@") with true by reflexivity.
    now rewrite domain_then_space.
  - lia.
  - intros i Hi. lia.
Qed.

(** The scan of an address of letters followed by a space and any text:
    the address, then whatever the text holds. *)
Lemma address_space_text :
  findall ((loc ++ "@" ++ dom ++ "." ++ tld) ++ " " ++ t)
  = (loc ++ "@" ++ dom ++ "." ++ tld) :: findall t.
Proof.
  unfold findall.
  assert (E : (loc ++ "@" ++ dom ++ "." ++ tld) ++ " " ++ t
              = loc ++ String "@" (dom ++ String "." (tld ++ String " " t))).
  { repeat (rewrite app_assoc; cbn [append]). reflexivity. }
  pose proof (address_then_space None eq_refl) as M.
  rewrite <- E in M.
  replace (String.length loc + S (String.length dom + S (String.length tld)))
    with (String.length (loc ++ "@" ++ dom ++ "." ++ tld)) in M
    by (rewrite !length_app; simpl; lia).
  destruct (loc ++ "@" ++ dom ++ "." ++ tld) as [|c a] eqn:Ea.
  - destruct loc; [congruence | discriminate].
  - cbn [append scan String.length] in *. rewrite M.
    cbn [take]. rewrite take_app_length, scan_skip.
    cbn [scan]. rewrite space_no_match.
    now rewrite (scan_prev email_pattern (Some " "%char) None t eq_refl).
Qed.

End Followed.

(** C5, amended.  The candidates are the occurrences of the pattern in
    the text, all of them and in text order.  They stand in the text one
    after the other, left to right, without overlap, and the filtered
    list of the search stage keeps that order.  A list is the result
    exactly when it is the sequence of occurrences: each entry is what
    the pattern matches where it stands, and no match starts in the gaps
    before, between and after the entries; so an entry is there for each
    occurrence, equal strings included, and nothing is removed.  In
    particular an address of letters put before the text, with a space
    between, is listed in front of the candidates of the text, whether
    or not it is among them already. *)
Theorem C5_candidates_in_text_order (text : string) :
  in_order (findall text) text
  /\ in_order (valid_emails (findall text)) text
  /\ (forall ms,
        occurrences email_pattern None text ms <-> ms = findall text)
  /\ (forall loc dom tld,
        Spec.all_chars Spec.is_letter loc = true ->
        Spec.all_chars Spec.is_letter dom = true ->
        Spec.all_chars Spec.is_letter tld = true ->
        loc <> "" -> dom <> "" -> 2 <= String.length tld ->
        findall ((loc ++ "@" ++ dom ++ "." ++ tld) ++ " " ++ text)
        = (loc ++ "@" ++ dom ++ "." ++ tld) :: findall text).
Proof.
  assert (H : in_order (findall text) text).
  { unfold findall.
    pose proof (scan_in_order email_pattern text 0 None) as H.
    now rewrite drop_0 in H. }
  split; [exact H|]. split; [now apply in_order_filter|]. split.
  - intros ms. split.
    + apply occurrences_scan.
    + intros ->. unfold findall.
      eapply scan_occurrences; [apply no_empty_match | apply le_n].
  - intros loc dom tld Ll Ld Lt Nl Nd Nt.
    now apply address_space_text.
Qed.

End Listing.
